(** * music_sheet_to_pianoroll: a shallow embedding and its properties

    The module [music_sheet_to_pianoroll.py] has two functions:
    - [music21_stream_to_piano_roll] flattens a score into a list of
      [(pitch, start, end)] tuples;
    - [save_piano_roll_fig] draws such a list and saves the figure.

    Pitches are Python [int]s, embedded as [Z]. Offsets and durations are
    [float | Fraction] values. The flattener adds two of them: it is
    embedded for any type of numbers and any addition, and Python's own,
    [Py.number] and [Py.add], with the floats of IEEE 754 as the Standard
    Library specifies them, are one instance. The renderer compares end
    times, which Python does on the exact values, and adds the float 0.1 to
    one end time, which depends on the value alone: its lists hold the
    values, rationals [Q] compared with [Qeq]/[Qle], of numbers that are
    finite. *)

From Stdlib Require Import Ascii QArith SpecFloat.
From stdpp Require Import base numbers list sorting strings gmap pretty.

#[local] Set Warnings "-clear-no-such-hyp".

Local Open Scope string_scope.
Local Open Scope Z_scope.
Local Open Scope list_scope.

(** ** Python values and exceptions *)

(** The exceptions the two functions can meet. [DanglingReference] stands
    for a reference to no object, which no Python program can hold: it is
    what the embedding answers when a reference is not in the heap. The last
    four are what opening a file can raise besides [FileNotFoundError];
    [OSError] stands for the rest of its subclasses. *)
Inductive exn : Type :=
  | ValueError
  | IndexError
  | FileNotFoundError
  | DanglingReference
  | NotADirectoryError
  | IsADirectoryError
  | PermissionError
  | OSError.

Global Instance exn_eq_dec : EqDecision exn.
Proof. solve_decision. Defined.

(** A computation that either raises or returns. *)
Definition result (A : Type) : Type := (exn + A)%type.

Definition res_bind {A B} (m : result A) (k : A → result B) : result B :=
  match m with
  | inl e => inl e
  | inr a => k a
  end.

Notation "'let?' x ':=' m 'in' k" := (res_bind m (fun x => k))
  (at level 10, x pattern, m at level 100, k at level 200).

(** [(pitch, start, end)] *)
Definition note_event : Type := (Z * Q * Q)%type.

Definition ev_pitch (n : note_event) : Z := n.1.1.
Definition ev_start (n : note_event) : Q := n.1.2.
Definition ev_end (n : note_event) : Q := n.2.

(** ** The flattener: [music21_stream_to_piano_roll] *)

Module Music21.

Section elements.

(** The numbers of music21, [float | Fraction]. *)
Variable number : Type.

(** What a flattened music21 stream holds, as far as the function looks at
    it: [note.Note], [chord.Chord], the other [NotRest] elements
    (unpitched percussion), rests, and everything else (clefs, key and time
    signatures, ...). *)
Inductive element : Type :=
  | Note (midi : Z) (quarterLength : number)
  | Chord (pitches : list Z) (quarterLength : number)
  | Unpitched (quarterLength : number)
  | Rest (quarterLength : number)
  | Marking.

(** A flat stream: every element with its offset in that stream, which is
    what [element.getOffsetBySite(flat_stream)] reads. *)
Definition flat_stream : Type := list (number * element).

(** [isinstance(element, note.NotRest)] *)
Definition is_NotRest (e : element) : bool :=
  match e with
  | Note _ _ | Chord _ _ | Unpitched _ => true
  | Rest _ | Marking => false
  end.

(** [flat_stream.notes] *)
Definition notes (s : flat_stream) : flat_stream :=
  List.filter (λ oe, is_NotRest oe.2) s.

(** the elements for which one of the two [isinstance] tests succeeds *)
Definition is_Note_or_Chord (e : element) : bool :=
  match e with
  | Note _ _ | Chord _ _ => true
  | _ => false
  end.

End elements.

Arguments Note {number} midi quarterLength.
Arguments Chord {number} pitches quarterLength.
Arguments Unpitched {number} quarterLength.
Arguments Rest {number} quarterLength.
Arguments Marking {number}.
Arguments is_NotRest {number} e.
Arguments notes {number} s.
Arguments is_Note_or_Chord {number} e.

End Music21.

(** [(pitch, start, end)], as the flattener builds it *)
Definition tuple (number : Type) : Type := (Z * number * number)%type.

Definition tuple_pitch {number} (n : tuple number) : Z := n.1.1.
Definition tuple_start {number} (n : tuple number) : number := n.1.2.
Definition tuple_end {number} (n : tuple number) : number := n.2.

Section flattener.
Import Music21.

(** The numbers and their addition, Python's [+] on [float | Fraction]. *)
Variable number : Type.
Variable add : number → number → number.

(** The score type and [Stream.flatten] belong to music21; the function is
    verified for any of them. *)
Variable stream : Type.
Variable flatten : stream → flat_stream number.

(** [for pitch in element.pitches: notes.append((pitch.midi, start, end))] *)
Definition append_chord_pitches
    (absolute_start absolute_end : number) (pitches : list Z)
    (notes : list (tuple number)) : list (tuple number) :=
  fold_left (λ notes pitch, notes ++ [(pitch, absolute_start, absolute_end)])
            pitches notes.

(** One iteration of the loop over [flat_stream.notes]. *)
Definition visit_element (notes : list (tuple number))
    (oe : number * element number) : list (tuple number) :=
  match oe.2 with
  | Note midi quarterLength =>
      let absolute_start := oe.1 in
      let absolute_end := add absolute_start quarterLength in
      notes ++ [(midi, absolute_start, absolute_end)]
  | Chord pitches quarterLength =>
      let absolute_start := oe.1 in
      let absolute_end := add absolute_start quarterLength in
      append_chord_pitches absolute_start absolute_end pitches notes
  | _ => notes
  end.

Definition music21_stream_to_piano_roll (music_stream : stream)
    : list (tuple number) :=
  let notes := [] in
  let flat_stream := flatten music_stream in
  fold_left visit_element (Music21.notes flat_stream) notes.

(** The tuples one element contributes. *)
Definition element_events (oe : number * element number)
    : list (tuple number) :=
  match oe.2 with
  | Note midi ql => [(midi, oe.1, add oe.1 ql)]
  | Chord pitches ql => map (λ p, (p, oe.1, add oe.1 ql)) pitches
  | _ => []
  end.

End flattener.

(** ** Python built-ins used by the renderer *)

Module Py.

(** [min(l)] and [max(l)] on a list of [int]: [ValueError] when empty. *)
Definition min (l : list Z) : result Z :=
  match l with
  | [] => inl ValueError
  | x :: l' => inr (fold_left Z.min l' x)
  end.

Definition max (l : list Z) : result Z :=
  match l with
  | [] => inl ValueError
  | x :: l' => inr (fold_left Z.max l' x)
  end.

(** [l[i]]: a negative index counts from the end, an index out of range
    raises [IndexError]. *)
Definition getitem {A} (l : list A) (i : Z) : result A :=
  let n := Z.of_nat (length l) in
  let j := if i <? 0 then i + n else i in
  if (0 <=? j) && (j <? n) then
    match l !! Z.to_nat j with
    | Some x => inr x
    | None => inl IndexError
    end
  else inl IndexError.

(** [range(start, stop, step)] for a positive [step]. *)
Definition range (start stop step : Z) : list Z :=
  (λ i, start + step * i) <$> seqZ 0 ((stop - start + step - 1) `div` step).

(** [l.index(x)]: the position of the first occurrence, [ValueError] when
    there is none. *)
Fixpoint index (l : list string) (x : string) : result Z :=
  match l with
  | [] => inl ValueError
  | y :: l' =>
      if String.eqb y x then inr 0
      else let? i := index l' x in inr (i + 1)
  end.

(** [a < b] on [float | Fraction] values. *)
Definition Qltb (a b : Q) : bool :=
  match (a ?= b)%Q with
  | Lt => true
  | _ => false
  end.

(** [list.sort] and [sorted] are stable: an element moves in front of
    another one only when its key is strictly smaller. [lt] compares the
    keys of two elements. *)
Section sorting.
Context {A : Type} (lt : A → A → bool).

Fixpoint insert (x : A) (l : list A) : list A :=
  match l with
  | [] => [x]
  | y :: l' => if lt y x then y :: insert x l' else x :: y :: l'
  end.

Fixpoint sort (l : list A) : list A :=
  match l with
  | [] => []
  | x :: l' => insert x (sort l')
  end.
End sorting.

(** A [dict] keeps its keys in insertion order; assigning to a key that is
    present replaces the value where the key stands. *)
Definition dict (V : Type) : Type := list (string * V).

Fixpoint setitem {V} (d : dict V) (k : string) (v : V) : dict V :=
  match d with
  | [] => [(k, v)]
  | (k', v') :: d' =>
      if String.eqb k' k then (k', v) :: d' else (k', v') :: setitem d' k v
  end.

(** [dict(items)] *)
Definition dict_of_items {V} (items : list (string * V)) : dict V :=
  fold_left (λ d kv, setitem d kv.1 kv.2) items [].

(** [[f(x) for x in l]] where [f] may raise. *)
Fixpoint comprehension {A B} (f : A → result B) (l : list A) : result (list B) :=
  match l with
  | [] => inr []
  | x :: l' =>
      let? y := f x in
      let? ys := comprehension f l' in
      inr (y :: ys)
  end.

(** *** Numbers *)

(** A [float] is a double of IEEE 754, as the Standard Library specifies
    it. *)
Definition float : Type := spec_float.

(** [float(q)] for a [Fraction] [q], and the float a decimal literal stands
    for: the double nearest to the rational, ties to even. (For a Fraction
    beyond the largest float Python raises [OverflowError], where this gives
    the infinity; the numbers of a score are far from there.) *)
Definition float_of_Q (q : Q) : float :=
  let nearest (negative : bool) (n : positive) : float :=
    let '(m, e, l) :=
      SFdiv_core_binary 53 1024 (Zpos n) 0 (Zpos (Qden q)) 0 in
    binary_round_aux 53 1024 negative m e l in
  match Qnum q with
  | Z0 => S754_zero false
  | Zpos n => nearest false n
  | Zneg n => nearest true n
  end.

(** [x + y] on two floats *)
Definition float_add : float → float → float := SFadd 53 1024.

(** the literal [0.1] *)
Definition tenth : float := float_of_Q (1 # 10).

(** The value of a float that is finite. *)
Definition float_value (x : float) : option Q :=
  match x with
  | S754_zero _ => Some 0%Q
  | S754_finite negative m e =>
      let n := if negative then Zneg m else Zpos m in
      Some (match e with
            | Zneg k => Qmake n (2 ^ k)
            | _ => inject_Z (n * 2 ^ e)
            end)
  | S754_infinity _ | S754_nan => None
  end.

(** A number of music21: [float | Fraction]. *)
Inductive number : Type :=
  | Float (x : float)
  | Fraction (q : Q).

(** [a + b]. Two Fractions are added exactly; when one operand is a float
    the other one is turned into a float, and the two floats are added. *)
Definition add (a b : number) : number :=
  match a, b with
  | Fraction p, Fraction q => Fraction (Qred (p + q))
  | Fraction p, Float y => Float (float_add (float_of_Q p) y)
  | Float x, Fraction q => Float (float_add x (float_of_Q q))
  | Float x, Float y => Float (float_add x y)
  end.

(** The value of a number that is finite, which is what Python compares two
    numbers by. An infinity and a NaN have none: 0 stands in for it, and no
    statement below is about them. *)
Definition value (a : number) : Q :=
  match a with
  | Fraction q => q
  | Float x => default 0%Q (float_value x)
  end.

End Py.

(** ** The figure *)

Definition GRAPH_COLORS : list string :=
  ["red"; "green"; "blue"; "yellow"; "purple"; "orange"; "cyan"; "magenta";
   "lime"; "pink"; "teal"; "lavender"].

Definition PITCH_CLASSES : list string :=
  ["C"; "C#/Db"; "D"; "D#/Eb"; "E"; "F"; "F#/Gb"; "G"; "G#/Ab"; "A"; "A#/Bb"; "B"].

(** What the renderer asks of matplotlib: a figure with one axes object that
    records the calls made on it. *)
Module Plt.

Record Line2D : Type := mkLine2D {
  xdata : list Q;
  ydata : list Z;
  color : string;
  label : option string
}.

(** A bound of the x-axis: the [int] or the [float] that was passed. *)
Inductive bound : Type :=
  | IntBound (z : Z)
  | FloatBound (x : Py.float).

Record Axes : Type := mkAxes {
  lines : list Line2D;
  xlim : option (bound * bound);
  ylim : option (Z * Z);
  title : string;
  xlabel : string;
  ylabel : string;
  grid : bool;
  yticks : option (list Z);
  yticklabels : option (list string)
}.

Record Figure : Type := mkFigure {
  layout : string;
  figsize : Z * Z;
  axes : Axes;
  legend : option (list Line2D * string)
}.

(** [fig.subplots()] on a new figure *)
Definition subplots : Axes :=
  mkAxes [] None None "" "" "" false None None.

(** [ax.plot(xs, ys, color=c)] *)
Definition plot (xs : list Q) (ys : list Z) (c : string) (ax : Axes) : Axes :=
  mkAxes (lines ax ++ [mkLine2D xs ys c None]) (xlim ax) (ylim ax) (title ax)
         (xlabel ax) (ylabel ax) (grid ax) (yticks ax) (yticklabels ax).

Definition set_xlim (lo hi : bound) (ax : Axes) : Axes :=
  mkAxes (lines ax) (Some (lo, hi)) (ylim ax) (title ax)
         (xlabel ax) (ylabel ax) (grid ax) (yticks ax) (yticklabels ax).

Definition set_ylim (lo hi : Z) (ax : Axes) : Axes :=
  mkAxes (lines ax) (xlim ax) (Some (lo, hi)) (title ax)
         (xlabel ax) (ylabel ax) (grid ax) (yticks ax) (yticklabels ax).

Definition set_title (s : string) (ax : Axes) : Axes :=
  mkAxes (lines ax) (xlim ax) (ylim ax) s
         (xlabel ax) (ylabel ax) (grid ax) (yticks ax) (yticklabels ax).

Definition set_xlabel (s : string) (ax : Axes) : Axes :=
  mkAxes (lines ax) (xlim ax) (ylim ax) (title ax)
         s (ylabel ax) (grid ax) (yticks ax) (yticklabels ax).

Definition set_ylabel (s : string) (ax : Axes) : Axes :=
  mkAxes (lines ax) (xlim ax) (ylim ax) (title ax)
         (xlabel ax) s (grid ax) (yticks ax) (yticklabels ax).

Definition set_grid (b : bool) (ax : Axes) : Axes :=
  mkAxes (lines ax) (xlim ax) (ylim ax) (title ax)
         (xlabel ax) (ylabel ax) b (yticks ax) (yticklabels ax).

Definition set_yticks (t : list Z) (ax : Axes) : Axes :=
  mkAxes (lines ax) (xlim ax) (ylim ax) (title ax)
         (xlabel ax) (ylabel ax) (grid ax) (Some t) (yticklabels ax).

Definition set_yticklabels (t : list string) (ax : Axes) : Axes :=
  mkAxes (lines ax) (xlim ax) (ylim ax) (title ax)
         (xlabel ax) (ylabel ax) (grid ax) (yticks ax) (Some t).

End Plt.

(** ** The world the renderer runs in *)

(** A reference to a Python list object. *)
Definition loc : Type := nat.

(** Why the operating system refuses to open a file for writing when the
    directories and the files are not the reason: a permission that lacks,
    or anything else (a file system that is read-only or full, a name that
    is too long, ...). *)
Inductive refusal : Type :=
  | NoPermission
  | OtherFailure.

(** The list objects on the heap; the file system: the names that lead to a
    directory, the names that lead to a regular file, with what the file
    holds, and the names the operating system refuses to open for writing;
    and what was printed. *)
Record World : Type := mkWorld {
  heap : gmap loc (list note_event);
  directories : gset string;
  files : gmap string Plt.Figure;
  stdout : list string;
  refused : gmap string refusal
}.

Definition set_heap (h : gmap loc (list note_event)) (w : World) : World :=
  mkWorld h (directories w) (files w) (stdout w) (refused w).

Definition set_files (f : gmap string Plt.Figure) (w : World) : World :=
  mkWorld (heap w) (directories w) f (stdout w) (refused w).

Definition set_stdout (o : list string) (w : World) : World :=
  mkWorld (heap w) (directories w) (files w) o (refused w).

(** A statement: it runs in a world and raises or returns. *)
Definition M (A : Type) : Type := World → result A * World.

Definition ret {A} (a : A) : M A := λ w, (inr a, w).

Definition raise {A} (e : exn) : M A := λ w, (inl e, w).

Definition bind {A B} (m : M A) (k : A → M B) : M B := λ w,
  match m w with
  | (inl e, w') => (inl e, w')
  | (inr a, w') => k a w'
  end.

(** A pure expression that may raise. *)
Definition lift {A} (r : result A) : M A := λ w, (r, w).

(** [try: body  except e: handler] *)
Definition try_except (body : M unit) (e : exn) (handler : M unit) : M unit := λ w,
  match body w with
  | (inl e', w') => if decide (e' = e) then handler w' else (inl e', w')
  | (inr a, w') => (inr a, w')
  end.

Notation "'let!' x ':=' m 'in' k" := (bind m (fun x => k))
  (at level 10, x pattern, m at level 100, k at level 200).

(** Reading the list object behind a reference. *)
Definition deref (r : loc) : M (list note_event) := λ w,
  match heap w !! r with
  | Some l => (inr l, w)
  | None => (inl DanglingReference, w)
  end.

(** [r.sort(key=lambda n: n[2], reverse=False)]: the object behind [r] is
    replaced by its sorted contents. *)
Definition list_sort_by_end (r : loc) : M unit :=
  let! l := deref r in
  let sorted := Py.sort (λ a b, Py.Qltb (ev_end a) (ev_end b)) l in
  λ w, (inr (), set_heap (<[r := sorted]> (heap w)) w).

(** [print(s)] *)
Definition print (s : string) : M unit := λ w,
  (inr (), set_stdout (stdout w ++ [s]) w).

(** *** Paths *)

(** [c in s] *)
Fixpoint has_char (c : ascii) (s : string) : bool :=
  match s with
  | EmptyString => false
  | String c' s' => Ascii.eqb c' c || has_char c s'
  end.

Fixpoint has_slash (s : string) : bool :=
  match s with
  | EmptyString => false
  | String c s' => Ascii.eqb c "/"%char || has_slash s'
  end.

(** The text before the last slash of a file name: the directory the file
    is created in. *)
Fixpoint dirname (s : string) : string :=
  match s with
  | EmptyString => EmptyString
  | String c s' => if has_slash s' then String c (dirname s') else EmptyString
  end.

(** The texts that stand before a slash of [s]: the ancestors of a
    directory or of a file named [s]. *)
Fixpoint slash_prefixes (s : string) : list string :=
  match s with
  | EmptyString => []
  | String c s' =>
      (if Ascii.eqb c "/" then [EmptyString] else [])
      ++ (String c <$> slash_prefixes s')
  end.

(** [os.path.basename]: the text after the last slash. *)
Fixpoint basename (s : string) : string :=
  match s with
  | EmptyString => EmptyString
  | String c s' =>
      if has_slash s' then basename s'
      else if Ascii.eqb c "/" then s' else s
  end.

Fixpoint has_dot (s : string) : bool :=
  match s with
  | EmptyString => false
  | String c s' => Ascii.eqb c "."%char || has_dot s'
  end.

(** [s.lstrip('.')] and [s.rstrip('.')] *)
Fixpoint lstrip_dots (s : string) : string :=
  match s with
  | EmptyString => EmptyString
  | String c s' => if Ascii.eqb c "." then lstrip_dots s' else s
  end.

Fixpoint rstrip_dots (s : string) : string :=
  match s with
  | EmptyString => EmptyString
  | String c s' =>
      match rstrip_dots s' with
      | EmptyString => if Ascii.eqb c "." then EmptyString else String c ""
      | r => String c r
      end
  end.

(** [os.path.splitext(fname)[1][1:] == '']: the name has no extension, which
    is the text after the last dot of the base name when a character other
    than a dot stands before that dot, or it has the extension ['.']. *)
Definition no_format (fname : string) : bool :=
  negb (has_dot (lstrip_dots (basename fname)))
  || negb (String.eqb (rstrip_dots fname) fname).

(** The name matplotlib writes the figure under: [fname] when it has an
    extension, and [fname.rstrip('.') + '.png'], from the default format,
    when it has none. (The names of this program end in ['.png'], so that
    the extension is ['.png'] or none.) *)
Definition savefig_name (fname : string) : string :=
  if no_format fname then rstrip_dots fname +:+ ".png" else fname.

(** What [open(name, 'wb')] raises, [None] when the file opens. Python
    refuses a name that holds a NUL character, with [ValueError], before it
    asks the operating system. The operating system may refuse the name; a
    regular file may stand where the name has a directory; the directory of
    the file may not exist; a directory may have the name of the file. *)
Definition open_error (name : string) (w : World) : option exn :=
  if has_char Ascii.zero name then Some ValueError
  else
    match refused w !! name with
    | Some NoPermission => Some PermissionError
    | Some OtherFailure => Some OSError
    | None =>
        if existsb (λ p, bool_decide (p ∈ dom (files w))) (slash_prefixes name)
        then Some NotADirectoryError
        else if bool_decide (dirname name ∈ directories w)
        then if bool_decide (name ∈ directories w)
             then Some IsADirectoryError else None
        else Some FileNotFoundError
    end.

(** [fig.savefig(fname)]: the figure is written to the file matplotlib names,
    when that file opens for writing. *)
Definition savefig (fig : Plt.Figure) (fname : string) : M unit := λ w,
  let name := savefig_name fname in
  match open_error name w with
  | Some e => (inl e, w)
  | None => (inr (), set_files (<[name := fig]> (files w)) w)
  end.

(** A file system is well formed when all the ancestors of its directories
    are directories of it. *)
Definition ancestors_exist (dirs : gset string) : Prop :=
  ∀ p r, p +:+ String "/" r ∈ dirs → p ∈ dirs.

(** [plt.clf()] and [plt.close(fig)] act on pyplot's own registry of figures,
    which holds neither the figure built here nor anything else the function
    reads. *)
Definition plt_clf : M unit := ret ().
Definition plt_close (fig : Plt.Figure) : M unit := ret ().

(** ** The renderer: [save_piano_roll_fig] *)

(** The loop over the sorted list: one line per event, and the legend entry
    of its pitch class. *)
Fixpoint plot_notes (roll : list note_event) (ax : Plt.Axes)
    (legend : Py.dict string) : result (Plt.Axes * Py.dict string) :=
  match roll with
  | [] => inr (ax, legend)
  | (pitch, start, end_) :: roll' =>
      let pc := pitch `mod` 12 in
      let? c := Py.getitem GRAPH_COLORS pc in
      let ax := Plt.plot [start; end_] [pitch; pitch] c ax in
      let? c' := Py.getitem GRAPH_COLORS pc in
      let? name := Py.getitem PITCH_CLASSES pc in
      plot_notes roll' ax (Py.setitem legend name c')
  end.

(** [f'C{i // 12 - 1}-({i})'] *)
Definition ytick_label (i : Z) : string :=
  "C" +:+ pretty (i `div` 12 - 1) +:+ "-(" +:+ pretty i +:+ ")".

(** The body of [if show_legend:] up to the list of handles. *)
Definition legend_handles (legend : Py.dict string) : result (list Plt.Line2D) :=
  let items := legend in
  let? keys := Py.comprehension (λ item, Py.index PITCH_CLASSES item.1) items in
  let sorted :=
    (Py.sort (λ a b : Z * (string * string), a.1 <? b.1) (zip keys items)).*2 in
  let legend := Py.dict_of_items sorted in
  let colors_to_print := legend.*2 in
  let pitch_classes_to_print := legend.*1 in
  Py.comprehension
    (λ i, let? c := Py.getitem colors_to_print i in
          let? l := Py.getitem pitch_classes_to_print i in
          inr (Plt.mkLine2D [0%Q] [0] c (Some l)))
    (Py.range 0 (Z.of_nat (length colors_to_print)) 1).

(** Everything [save_piano_roll_fig] does before it saves: the figure it
    builds from the list behind [piano_roll], which it sorts on the way. *)
Definition draw_piano_roll (piano_roll : loc) (path : string)
    (show_legend : bool) : M Plt.Figure :=
  let! roll := deref piano_roll in
  let! min_pitch := lift (Py.min (ev_pitch <$> roll)) in
  let! max_pitch := lift (Py.max (ev_pitch <$> roll)) in
  let min_y := min_pitch - (min_pitch `mod` 12) in
  let max_y := max_pitch + 13 - (max_pitch `mod` 12) in
  let! _ := plt_clf in
  let ax := Plt.subplots in
  let legend := [] in
  let! _ := list_sort_by_end piano_roll in
  let! roll := deref piano_roll in
  let! (ax, legend) := lift (plot_notes roll ax legend) in
  let! ax :=
    lift (if 0 <? Z.of_nat (length roll) then
            let? n := Py.getitem roll (-1) in
            let right := Py.float_add (Py.float_of_Q (ev_end n)) Py.tenth in
            inr (Plt.set_xlim (Plt.IntBound 0) (Plt.FloatBound right) ax)
          else inr (Plt.set_xlim (Plt.IntBound 0) (Plt.IntBound 1) ax)) in
  let ax := Plt.set_ylim min_y max_y ax in
  let ax := Plt.set_title ("Piano roll for " +:+ path) ax in
  let ax := Plt.set_xlabel "Time (s)" ax in
  let ax := Plt.set_ylabel "Pitch" ax in
  let ax := Plt.set_grid true ax in
  let ax := Plt.set_yticks (Py.range min_y max_y 12) ax in
  let ax := Plt.set_yticklabels (ytick_label <$> Py.range min_y max_y 12) ax in
  let! fig_legend :=
    lift (if show_legend then
            let? handles := legend_handles legend in
            inr (Some (handles, "outside right"))
          else inr None) in
  ret (Plt.mkFigure "constrained" (14, 5) ax fig_legend).

Definition save_piano_roll_fig (piano_roll : loc) (path output_path : string)
    (show_legend : bool) : M unit :=
  let! fig := draw_piano_roll piano_roll path show_legend in
  let! _ :=
    try_except
      (savefig fig (output_path +:+ "/piano_rolls/" +:+ path +:+ ".png"))
      FileNotFoundError
      (print "The directory does not exist for saving the piano roll figure.") in
  plt_close fig.

(** ** The program: the [__main__] block *)

(** A list that a function has just built is a new object: it gets a
    reference that no object of the heap has. *)
Definition alloc (l : list note_event) : M loc := λ w,
  let r := fresh (dom (heap w)) in
  (inr r, set_heap (<[r := l]> (heap w)) w).

Section program.

(** The numbers of the score, their addition and their values. *)
Variable number : Type.
Variable add : number → number → number.
Variable value : number → Q.

(** [music21.converter.parse] belongs to music21 as well: it reads the file
    and returns a score, or raises. *)
Variable stream : Type.
Variable flatten : stream → Music21.flat_stream number.
Variable parse : string → M stream.

(** A tuple of the flattener as the embedding of the renderer holds it: with
    the values of its two numbers. *)
Definition tuple_values (n : tuple number) : note_event :=
  (tuple_pitch n, value (tuple_start n), value (tuple_end n)).

(** The program, from the one argument [argparse] hands over:
    [music_sheet_path]. *)
Definition main (music_sheet_path : string) : M unit :=
  let! music_sheet := parse music_sheet_path in
  let! piano_roll_tuples :=
    alloc (tuple_values
             <$> music21_stream_to_piano_roll number add stream flatten
                   music_sheet) in
  save_piano_roll_fig piano_roll_tuples music_sheet_path "." false.

End program.

(** * Vocabulary of the statements *)

(** [a] may stand in front of [b] in a list sorted with the comparison [lt]:
    [b] is not strictly smaller. *)
Definition not_after {A} (lt : A → A → bool) (a b : A) : Prop := lt b a = false.

(** The comparison [save_piano_roll_fig] sorts with: [key=lambda n: n[2]]. *)
Definition end_ltb (a b : note_event) : bool := Py.Qltb (ev_end a) (ev_end b).

(** The color and the name of pitch class [c]: the entries of the two tables
    at position [c]. *)
Definition class_color (c : Z) : string := nth (Z.to_nat c) GRAPH_COLORS "".
Definition class_name (c : Z) : string := nth (Z.to_nat c) PITCH_CLASSES "".

Definition in_table (c : Z) : Prop := 0 ≤ c < 12.

Ltac table_cases c H :=
  let Hc := fresh in
  assert (c = 0 ∨ c = 1 ∨ c = 2 ∨ c = 3 ∨ c = 4 ∨ c = 5 ∨ c = 6 ∨ c = 7
          ∨ c = 8 ∨ c = 9 ∨ c = 10 ∨ c = 11) as Hc by (unfold in_table in H; lia);
  clear H;
  repeat (destruct Hc as [->|Hc]); try subst c.

Definition class_entry (c : Z) : string * string := (class_name c, class_color c).

(** [legend[PITCH_CLASSES[c]] = GRAPH_COLORS[c]] on the classes in the legend *)
Fixpoint add_class (cs : list Z) (c : Z) : list Z :=
  match cs with
  | [] => [c]
  | c' :: cs' => if c' =? c then c' :: cs' else c' :: add_class cs' c
  end.

Definition classes_seen (roll : list note_event) (cs : list Z) : list Z :=
  fold_left (λ cs n, add_class cs (ev_pitch n `mod` 12)) roll cs.

Definition note_line (n : note_event) : Plt.Line2D :=
  Plt.mkLine2D [ev_start n; ev_end n] [ev_pitch n; ev_pitch n]
               (class_color (ev_pitch n `mod` 12)) None.

Definition add_lines (ls : list Plt.Line2D) (ax : Plt.Axes) : Plt.Axes :=
  Plt.mkAxes (Plt.lines ax ++ ls) (Plt.xlim ax) (Plt.ylim ax) (Plt.title ax)
             (Plt.xlabel ax) (Plt.ylabel ax) (Plt.grid ax) (Plt.yticks ax)
             (Plt.yticklabels ax).

Definition class_handle (c : Z) : Plt.Line2D :=
  Plt.mkLine2D [0%Q] [0] (class_color c) (Some (class_name c)).

(** The pitch classes that occur in a piano roll, in the order of the table
    [PITCH_CLASSES]. *)
Definition present_class (roll : list note_event) (c : Z) : bool :=
  existsb (λ n, ev_pitch n `mod` 12 =? c) roll.

Definition legend_classes (roll : list note_event) : list Z :=
  List.filter (present_class roll) (Py.range 0 12 1).

(** The list as the renderer leaves it. *)
Definition sorted_by_end (roll : list note_event) : list note_event :=
  Py.sort end_ltb roll.

(** The figure drawn for a piano roll whose lowest and highest pitches are
    [min_pitch] and [max_pitch]. *)
Definition figure_of (roll : list note_event) (min_pitch max_pitch : Z)
    (path : string) (show_legend : bool) : Plt.Figure :=
  let min_y := min_pitch - min_pitch `mod` 12 in
  let max_y := max_pitch + 13 - max_pitch `mod` 12 in
  Plt.mkFigure "constrained" (14, 5)
    (Plt.mkAxes
       (note_line <$> sorted_by_end roll)
       (Some (Plt.IntBound 0,
              from_option
                (λ n, Plt.FloatBound
                        (Py.float_add (Py.float_of_Q (ev_end n)) Py.tenth))
                (Plt.IntBound 1) (last (sorted_by_end roll))))
       (Some (min_y, max_y))
       ("Piano roll for " +:+ path) "Time (s)" "Pitch" true
       (Some (Py.range min_y max_y 12))
       (Some (ytick_label <$> Py.range min_y max_y 12)))
    (if show_legend
     then Some (class_handle <$> legend_classes roll, "outside right")
     else None).

(** The file the figure goes to. *)
Definition figure_file (output_path path : string) : string :=
  output_path +:+ "/piano_rolls/" +:+ path +:+ ".png".

(** The name the figure is written under. *)
Definition figure_name (output_path path : string) : string :=
  savefig_name (figure_file output_path path).

(** A text of dots only, the empty one too. *)
Definition only_dots (s : string) : bool :=
  String.eqb (lstrip_dots s) "".

(** A text without a dollar sign, which matplotlib draws as it is: between
    two dollar signs it reads a formula, and raises when it finds none. *)
Definition plain_text (s : string) : Prop := has_char "$" s = false.

(** No regular file stands where [name] has a directory. *)
Definition no_file_in_the_way (name : string) (w : World) : Prop :=
  Forall (λ p, p ∉ dom (files w)) (slash_prefixes name).

(** [ancestors_exist], checked on a list of directories. *)
Definition ancestors_existb (dirs : list string) : bool :=
  forallb (λ d, forallb (λ p, bool_decide (p ∈ dirs)) (slash_prefixes d)) dirs.

Definition missing_directory_message : string :=
  "The directory does not exist for saving the piano roll figure.".

(** The float nearest to a rational, as a number: [0.5] is
    [py_float (1 # 2)]. *)
Definition py_float (q : Q) : Py.number := Py.Float (Py.float_of_Q q).

(** A score for the examples: measures at an offset of their own, each with
    elements at an offset inside the measure. Its numbers are Python's,
    floats where music21 has floats and Fractions for the triplets. *)
Definition demo_score : Type :=
  list (Py.number * list (Py.number * Music21.element Py.number)).

Definition demo_flatten (s : demo_score) : Music21.flat_stream Py.number :=
  flat_map (λ m, (λ oe, (Py.add m.1 oe.1, oe.2)) <$> m.2) s.

Definition one_note_score : demo_score :=
  [(py_float 0,
    [(py_float 0, Music21.Marking); (py_float 0, Music21.Rest (py_float 1));
     (Py.Fraction (1 # 3), Music21.Note 60 (py_float (1 # 2)));
     (py_float (3 # 2), Music21.Unpitched (py_float 1))])].

Definition chord_score : demo_score :=
  [(py_float 0, [(py_float 0, Music21.Note 72 (py_float 1))]);
   (py_float 4,
    [(Py.Fraction (1 # 3), Music21.Chord [60; 64; 67] (py_float 2));
     (py_float 3, Music21.Rest (py_float 1))])].





(** A world for the examples: one list object, at reference 0, and the
    directories given. *)
Definition world_with (roll : list note_event) (dirs : list string) : World :=
  mkWorld {[ 0%nat := roll ]} (list_to_set dirs) ∅ [] ∅.

Definition roll_60_72 : list note_event :=
  [(72, 1%Q, 2%Q); (60, 0%Q, 1%Q)].

Definition roll_ties : list note_event :=
  [(67, 1%Q, 2%Q); (60, 0%Q, 1%Q); (72, (1 # 2)%Q, (4 # 2)%Q); (48, 0%Q, 1%Q);
   (-5, 0%Q, (1 # 2)%Q)].

(** The bounds the sentence of C2 describes: the pitch rounded down, and
    rounded up, to a multiple of 12. *)
Definition octave_floor (p : Z) : Z := 12 * (p `div` 12).
Definition octave_ceiling (p : Z) : Z := 12 * ((p + 11) `div` 12).

(** The number of tuples an element of the stream stands for. *)
Definition sounding_pitches {number} (e : Music21.element number) : nat :=
  match e with
  | Music21.Note _ _ => 1
  | Music21.Chord pitches _ => length pitches
  | _ => 0
  end.

(** The directory [figure_file output_path path] is created in. *)
Definition figure_directory (output_path path : string) : string :=
  output_path +:+ "/piano_rolls"
  +:+ (if has_slash path then String "/" (dirname path) else "").

(** A score that is a flat stream already, for the examples of the program,
    and a parser that knows one file. *)
Definition demo_parse (music_sheet_path : string)
    : M (Music21.flat_stream Py.number) :=
  if String.eqb music_sheet_path "scores/chord.xml"
  then ret (demo_flatten chord_score)
  else if String.eqb music_sheet_path "rests.xml"
  then ret [(py_float 0, Music21.Rest (py_float 4));
            (py_float 4, Music21.Marking)]
  else raise FileNotFoundError.

(** The events a score gives, for which the model of the plotting library
    stands: a MIDI pitch, from 0 to 127, and two times that are not negative
    and far from the limits of the floats. *)
Definition score_event (n : note_event) : Prop :=
  0 ≤ ev_pitch n ≤ 127
  ∧ (0 <= ev_start n)%Q ∧ (ev_start n <= inject_Z (2 ^ 31))%Q
  ∧ (0 <= ev_end n)%Q ∧ (ev_end n <= inject_Z (2 ^ 31))%Q.

(** * Properties *)

(** ** Python built-ins *)

Section sort_facts.
Context {A : Type} (lt : A → A → bool).

Hypothesis lt_asym : ∀ a b, lt a b = true → lt b a = false.
Hypothesis not_after_trans :
  ∀ a b c, not_after lt a b → not_after lt b c → not_after lt a c.

Lemma insert_perm x l : Permutation (Py.insert lt x l) (x :: l).
Proof.
  induction l as [|y l IH]; simpl; [done|].
  destruct (lt y x); [|done].
  rewrite IH. apply perm_swap.
Qed.

Lemma sort_perm l : Permutation (Py.sort lt l) l.
Proof.
  induction l as [|x l IH]; simpl; [done|].
  by rewrite insert_perm, IH.
Qed.

Lemma insert_sorted x l :
  StronglySorted (not_after lt) l →
  StronglySorted (not_after lt) (Py.insert lt x l).
Proof.
  induction 1 as [|y l Hl IH Hy]; simpl.
  - repeat constructor.
  - destruct (lt y x) eqn:Hyx.
    + constructor; [done|].
      rewrite Forall_forall. intros z Hz.
      rewrite insert_perm in Hz. apply elem_of_cons in Hz as [->|Hz].
      * by apply lt_asym.
      * rewrite Forall_forall in Hy. by apply Hy.
    + constructor; [by constructor|].
      constructor; [done|].
      eapply Forall_impl; [exact Hy|].
      intros z Hz. by eapply not_after_trans.
Qed.

Lemma sort_sorted l : StronglySorted (not_after lt) (Py.sort lt l).
Proof.
  induction l as [|x l IH]; simpl; [constructor|].
  by apply insert_sorted.
Qed.

(** Stability: the elements of a class whose members are never strictly
    smaller than one another keep their order. *)
Section stable.
Variable p : A → bool.
Hypothesis p_ties : ∀ a b, p a = true → p b = true → lt a b = false.

Lemma insert_filter x l :
  List.filter p (Py.insert lt x l) = List.filter p (x :: l).
Proof.
  induction l as [|y l IH]; [done|].
  simpl in *. destruct (lt y x) eqn:Hyx; [|done].
  simpl. rewrite IH.
  destruct (p x) eqn:Hx, (p y) eqn:Hy; try done.
  by rewrite p_ties in Hyx.
Qed.

Lemma sort_filter l : List.filter p (Py.sort lt l) = List.filter p l.
Proof.
  induction l as [|x l IH]; [done|].
  simpl Py.sort. rewrite insert_filter. simpl. by rewrite IH.
Qed.
End stable.
End sort_facts.

(** Sorting a list of decorated elements by the decoration. *)
Lemma sort_fmap {A B} (ltA : A → A → bool) (ltB : B → B → bool) (f : A → B) l :
  (∀ a b, ltB (f a) (f b) = ltA a b) →
  Py.sort ltB (f <$> l) = f <$> Py.sort ltA l.
Proof.
  intros Hf.
  assert (∀ x l, Py.insert ltB (f x) (f <$> l) = f <$> Py.insert ltA x l) as Hins.
  { clear l. intros x l. induction l as [|y l IH]; [done|].
    rewrite fmap_cons. simpl. rewrite Hf. destruct (ltA y x); [|done].
    rewrite fmap_cons. by f_equal. }
  induction l as [|x l IH]; [done|].
  rewrite fmap_cons. simpl. by rewrite IH, Hins.
Qed.

Lemma Qltb_lt a b : Py.Qltb a b = true ↔ (a < b)%Q.
Proof.
  unfold Py.Qltb. rewrite Qlt_alt.
  destruct (a ?= b)%Q; split; congruence.
Qed.

Lemma Qltb_ge a b : Py.Qltb b a = false ↔ (a <= b)%Q.
Proof.
  rewrite <- not_true_iff_false, Qltb_lt. split.
  - apply Qnot_lt_le.
  - apply Qle_not_lt.
Qed.

Lemma end_ltb_asym a b : end_ltb a b = true → end_ltb b a = false.
Proof.
  unfold end_ltb. rewrite Qltb_lt, Qltb_ge. apply Qlt_le_weak.
Qed.

Lemma end_not_after_trans a b c :
  not_after end_ltb a b → not_after end_ltb b c → not_after end_ltb a c.
Proof.
  unfold not_after, end_ltb. rewrite !Qltb_ge. apply Qle_trans.
Qed.

Lemma end_not_after_le a b : not_after end_ltb a b ↔ (ev_end a <= ev_end b)%Q.
Proof. unfold not_after, end_ltb. apply Qltb_ge. Qed.

Lemma getitem_lookup {A} (l : list A) (i : Z) (x : A) :
  0 ≤ i → l !! Z.to_nat i = Some x → Py.getitem l i = inr x.
Proof.
  intros Hi Hx. unfold Py.getitem.
  assert (Z.to_nat i < length l)%nat by by eapply lookup_lt_Some.
  destruct (Z.ltb_spec i 0); [lia|].
  destruct (Z.leb_spec 0 i); [|lia].
  destruct (Z.ltb_spec i (Z.of_nat (length l))); [|lia].
  simpl. by rewrite Hx.
Qed.

Lemma getitem_of_nat {A} (l : list A) (i : nat) (x : A) :
  l !! i = Some x → Py.getitem l (Z.of_nat i) = inr x.
Proof.
  intros Hx. apply getitem_lookup; [lia|]. by rewrite Nat2Z.id.
Qed.

Lemma getitem_last {A} (l : list A) (x : A) :
  Py.getitem (l ++ [x]) (-1) = inr x.
Proof.
  unfold Py.getitem. rewrite length_app. simpl.
  replace (-1 <? 0) with true by done.
  destruct (Z.leb_spec 0 (-1 + Z.of_nat (length l + 1))); [|lia].
  destruct (Z.ltb_spec (-1 + Z.of_nat (length l + 1)) (Z.of_nat (length l + 1))); [|lia].
  replace (Z.to_nat (-1 + Z.of_nat (length l + 1))) with (length l) by lia.
  simpl. by rewrite list_lookup_middle.
Qed.

Lemma mod12_in_table (p : Z) : in_table (p `mod` 12).
Proof. apply (Z.mod_pos_bound p 12 eq_refl). Qed.

Lemma getitem_GRAPH_COLORS c :
  in_table c → Py.getitem GRAPH_COLORS c = inr (class_color c).
Proof. intros H. table_cases c H; reflexivity. Qed.

Lemma getitem_PITCH_CLASSES c :
  in_table c → Py.getitem PITCH_CLASSES c = inr (class_name c).
Proof. intros H. table_cases c H; reflexivity. Qed.

Lemma lookup_GRAPH_COLORS c :
  in_table c → GRAPH_COLORS !! Z.to_nat c = Some (class_color c).
Proof. intros H. table_cases c H; reflexivity. Qed.

Lemma lookup_PITCH_CLASSES c :
  in_table c → PITCH_CLASSES !! Z.to_nat c = Some (class_name c).
Proof. intros H. table_cases c H; reflexivity. Qed.

Lemma index_PITCH_CLASSES c :
  in_table c → Py.index PITCH_CLASSES (class_name c) = inr c.
Proof. intros H. table_cases c H; reflexivity. Qed.

Lemma class_name_inj c c' :
  in_table c → in_table c' → class_name c = class_name c' → c = c'.
Proof.
  intros H H' Heq.
  assert (inr c = inr c' :> result Z) as [= ->]; [|done].
  by rewrite <- !index_PITCH_CLASSES, Heq.
Qed.

Lemma mod12_add12 (p : Z) : (p + 12) `mod` 12 = p `mod` 12.
Proof.
  replace (p + 12) with (p + 1 * 12) by lia. by rewrite Z.mod_add.
Qed.

Lemma fold_min_spec (l : list Z) (x : Z) :
  fold_left Z.min l x ∈ x :: l ∧ Forall (λ y, fold_left Z.min l x ≤ y) (x :: l).
Proof.
  revert x. induction l as [|y l IH]; intros x; simpl.
  - split; [set_solver|]. repeat constructor. lia.
  - destruct (IH (Z.min x y)) as [Hin Hle]. split.
    + apply elem_of_cons in Hin as [Hin|Hin]; [|set_solver].
      rewrite Hin. destruct (Z.min_spec x y) as [[_ ->]|[_ ->]]; set_solver.
    + apply Forall_cons in Hle as [Hm Hle].
      repeat constructor; [lia..|done].
Qed.

Lemma fold_max_spec (l : list Z) (x : Z) :
  fold_left Z.max l x ∈ x :: l ∧ Forall (λ y, y ≤ fold_left Z.max l x) (x :: l).
Proof.
  revert x. induction l as [|y l IH]; intros x; simpl.
  - split; [set_solver|]. repeat constructor. lia.
  - destruct (IH (Z.max x y)) as [Hin Hle]. split.
    + apply elem_of_cons in Hin as [Hin|Hin]; [|set_solver].
      rewrite Hin. destruct (Z.max_spec x y) as [[_ ->]|[_ ->]]; set_solver.
    + apply Forall_cons in Hle as [Hm Hle].
      repeat constructor; [lia..|done].
Qed.

Lemma range_0_step_1 (n : nat) :
  Py.range 0 (Z.of_nat n) 1 = Z.of_nat <$> seq 0 n.
Proof.
  unfold Py.range, seqZ.
  replace ((Z.of_nat n - 0 + 1 - 1) `div` 1) with (Z.of_nat n)
    by (rewrite Z.div_1_r; lia).
  rewrite Nat2Z.id, <- list_fmap_compose.
  apply list_fmap_ext. intros _ i _. simpl. lia.
Qed.

(** *** The legend dictionary, read as a list of pitch classes *)

Lemma setitem_class cs c :
  Forall in_table cs → in_table c →
  Py.setitem (class_entry <$> cs) (class_name c) (class_color c)
  = class_entry <$> add_class cs c.
Proof.
  intros Hcs Hc. induction Hcs as [|c' cs Hc' _ IH]; [done|].
  rewrite fmap_cons. simpl.
  destruct (String.eqb_spec (class_name c') (class_name c)) as [Heq|Hne].
  - apply class_name_inj in Heq as ->; [|done..].
    by rewrite Z.eqb_refl.
  - destruct (Z.eqb_spec c' c) as [->|_]; [done|].
    rewrite fmap_cons. by rewrite IH.
Qed.

Lemma elem_of_add_class cs c x : x ∈ add_class cs c ↔ x ∈ cs ∨ x = c.
Proof.
  induction cs as [|c' cs IH]; simpl; [set_solver|].
  destruct (Z.eqb_spec c' c) as [->|_]; set_solver.
Qed.

Lemma NoDup_add_class cs c : NoDup cs → NoDup (add_class cs c).
Proof.
  induction 1 as [|c' cs Hc' Hcs IH]; simpl.
  - apply NoDup_singleton.
  - destruct (Z.eqb_spec c' c) as [->|Hne]; [by constructor|].
    constructor; [|done]. rewrite elem_of_add_class. naive_solver.
Qed.

Lemma Forall_add_class (P : Z → Prop) cs c :
  Forall P cs → P c → Forall P (add_class cs c).
Proof.
  intros Hcs Hc. rewrite Forall_forall in *.
  intros x [?| ->]%elem_of_add_class; auto.
Qed.

Lemma elem_of_classes_seen roll cs x :
  x ∈ classes_seen roll cs ↔ x ∈ cs ∨ ∃ n, n ∈ roll ∧ ev_pitch n `mod` 12 = x.
Proof.
  unfold classes_seen. revert cs.
  induction roll as [|n roll IH]; intros cs; simpl.
  - set_solver.
  - rewrite IH, elem_of_add_class. set_solver.
Qed.

Lemma NoDup_classes_seen roll cs : NoDup cs → NoDup (classes_seen roll cs).
Proof.
  unfold classes_seen. revert cs.
  induction roll as [|n roll IH]; intros cs Hcs; simpl; [done|].
  by apply IH, NoDup_add_class.
Qed.

Lemma Forall_classes_seen roll cs :
  Forall in_table cs → Forall in_table (classes_seen roll cs).
Proof.
  unfold classes_seen. revert cs.
  induction roll as [|n roll IH]; intros cs Hcs; simpl; [done|].
  apply IH, Forall_add_class; [done|]. apply mod12_in_table.
Qed.

(** *** The drawing loop *)

Lemma plot_notes_spec roll ax cs :
  Forall in_table cs →
  plot_notes roll ax (class_entry <$> cs)
  = inr (add_lines (note_line <$> roll) ax, class_entry <$> classes_seen roll cs).
Proof.
  revert ax cs. induction roll as [|[[pitch start] end_] roll IH]; intros ax cs Hcs.
  - simpl. unfold add_lines. rewrite app_nil_r. by destruct ax.
  - simpl.
    rewrite getitem_GRAPH_COLORS, getitem_PITCH_CLASSES by apply mod12_in_table.
    simpl. rewrite setitem_class by (done || apply mod12_in_table).
    rewrite IH by (apply Forall_add_class; [done|apply mod12_in_table]).
    do 2 f_equal. unfold add_lines, Plt.plot. simpl.
    by rewrite <- app_assoc.
Qed.

(** *** The legend *)

Lemma present_class_spec roll c :
  present_class roll c = true ↔ ∃ n, n ∈ roll ∧ ev_pitch n `mod` 12 = c.
Proof.
  unfold present_class. rewrite existsb_exists.
  split; intros (n & Hn & Hc); exists n.
  - by rewrite list_elem_of_In, <- Z.eqb_eq.
  - by rewrite <- list_elem_of_In, Z.eqb_eq.
Qed.

Lemma elem_of_legend_classes roll c :
  c ∈ legend_classes roll ↔ ∃ n, n ∈ roll ∧ ev_pitch n `mod` 12 = c.
Proof.
  unfold legend_classes.
  rewrite list_elem_of_In, filter_In, present_class_spec, <- list_elem_of_In.
  split; [naive_solver|].
  intros (n & Hn & <-). split; [|by eauto].
  pose proof (mod12_in_table (ev_pitch n)) as H.
  table_cases (ev_pitch n `mod` 12) H; vm_compute; set_solver.
Qed.

Lemma StronglySorted_list_filter {A} (R : relation A) (p : A → bool) l :
  StronglySorted R l → StronglySorted R (List.filter p l).
Proof.
  induction 1 as [|x l Hl IH Hx]; simpl; [constructor|].
  destruct (p x); [|done]. constructor; [done|].
  rewrite Forall_forall in *. intros y Hy. apply Hx.
  rewrite list_elem_of_In in *. by apply filter_In in Hy as [? _].
Qed.

Lemma NoDup_list_filter {A} (p : A → bool) l :
  NoDup l → NoDup (List.filter p l).
Proof.
  induction 1 as [|x l Hx Hl IH]; simpl; [constructor|].
  destruct (p x); [|done]. constructor; [|done].
  rewrite list_elem_of_In, filter_In, <- list_elem_of_In. naive_solver.
Qed.

Lemma legend_classes_sorted roll : StronglySorted Z.lt (legend_classes roll).
Proof.
  apply StronglySorted_list_filter.
  change (Py.range 0 12 1) with [0; 1; 2; 3; 4; 5; 6; 7; 8; 9; 10; 11].
  repeat (apply SSorted_cons;
          [|repeat (apply List.Forall_cons; [lia|]); apply List.Forall_nil]).
  apply SSorted_nil.
Qed.

Lemma legend_classes_NoDup roll : NoDup (legend_classes roll).
Proof.
  apply NoDup_list_filter. unfold Py.range. apply NoDup_fmap_2, NoDup_seqZ.
  intros a b. lia.
Qed.

Lemma StronglySorted_impl {A} (R1 R2 : relation A) l :
  (∀ a b, R1 a b → R2 a b) → StronglySorted R1 l → StronglySorted R2 l.
Proof.
  intros HR. induction 1 as [|a l _ IH Ha]; constructor; [done|].
  eapply Forall_impl; [exact Ha|]. apply HR.
Qed.

(** Sorting the classes of the legend by their position in the table gives
    the classes that occur, in table order. *)
Lemma sort_classes (roll : list note_event) (cs : list Z) :
  NoDup cs →
  (∀ c, c ∈ cs ↔ ∃ n, n ∈ roll ∧ ev_pitch n `mod` 12 = c) →
  Py.sort Z.ltb cs = legend_classes roll.
Proof.
  intros Hnd Hcs.
  apply (StronglySorted_unique Z.le).
  - apply StronglySorted_impl with (not_after Z.ltb).
    { unfold not_after. intros a b H%Z.ltb_ge. lia. }
    apply sort_sorted; unfold not_after.
    + intros a b H%Z.ltb_lt. apply Z.ltb_ge. lia.
    + intros a b c H1%Z.ltb_ge H2%Z.ltb_ge. apply Z.ltb_ge. lia.
  - apply StronglySorted_impl with Z.lt; [lia|].
    apply legend_classes_sorted.
  - apply NoDup_Permutation.
    + by rewrite sort_perm.
    + apply legend_classes_NoDup.
    + intros c. by rewrite sort_perm, Hcs, elem_of_legend_classes.
Qed.

Lemma comprehension_fmap {A B C} (f : B → result C) (h : A → B) l :
  Py.comprehension f (h <$> l) = Py.comprehension (f ∘ h) l.
Proof.
  induction l as [|x l IH]; [done|].
  rewrite fmap_cons. simpl. by rewrite IH.
Qed.

Lemma comprehension_lookup {A B} (l : list A) (f : nat → result B) (g : A → B) :
  (∀ i x, l !! i = Some x → f i = inr (g x)) →
  Py.comprehension f (seq 0 (length l)) = inr (g <$> l).
Proof.
  revert f. induction l as [|x l IH]; intros f Hf; [done|].
  simpl. rewrite (Hf 0%nat x eq_refl). simpl.
  rewrite <- fmap_S_seq, comprehension_fmap, IH; [done|].
  intros i y Hy. by apply (Hf (S i)).
Qed.

Lemma comprehension_index cs :
  Forall in_table cs →
  Py.comprehension (λ item, Py.index PITCH_CLASSES item.1) (class_entry <$> cs)
  = inr cs.
Proof.
  induction 1 as [|c cs Hc _ IH]; [done|].
  rewrite fmap_cons. cbn [Py.comprehension].
  rewrite IH. cbn [class_entry fst]. by rewrite index_PITCH_CLASSES.
Qed.

Lemma zip_class_entry cs :
  zip cs (class_entry <$> cs) = (λ c, (c, class_entry c)) <$> cs.
Proof.
  induction cs as [|c cs IH]; [done|].
  rewrite !fmap_cons. simpl. by rewrite IH.
Qed.

Lemma add_class_fresh cs c : c ∉ cs → add_class cs c = cs ++ [c].
Proof.
  induction cs as [|c' cs IH]; intros Hc; simpl; [done|].
  apply not_elem_of_cons in Hc as [Hne Hc].
  destruct (Z.eqb_spec c' c); [congruence|]. by rewrite IH.
Qed.

Lemma fold_add_class l acc :
  NoDup (acc ++ l) → fold_left add_class l acc = acc ++ l.
Proof.
  revert acc. induction l as [|c l IH]; intros acc Hnd; simpl.
  - by rewrite app_nil_r.
  - rewrite add_class_fresh.
    + rewrite IH; rewrite <- app_assoc; done.
    + apply NoDup_app in Hnd as (_ & Hdisj & _).
      intros Hc. apply (Hdisj c Hc). by left.
Qed.

Lemma dict_of_items_classes cs :
  NoDup cs → Forall in_table cs →
  Py.dict_of_items (class_entry <$> cs) = class_entry <$> cs.
Proof.
  intros Hnd Hcs. unfold Py.dict_of_items.
  assert (∀ l acc, Forall in_table l → Forall in_table acc →
    fold_left (λ d kv, Py.setitem d kv.1 kv.2) (class_entry <$> l)
              (class_entry <$> acc)
    = class_entry <$> fold_left add_class l acc) as Hfold.
  { induction l as [|c l IH]; intros acc Hl Hacc; [done|].
    apply Forall_cons in Hl as [Hc Hl].
    rewrite fmap_cons. simpl. rewrite setitem_class by done.
    apply IH; [done|]. by apply Forall_add_class. }
  change [] with (class_entry <$> []) at 1.
  rewrite Hfold by (done || constructor).
  by rewrite fold_add_class.
Qed.

Lemma legend_handles_classes cs :
  NoDup cs → Forall in_table cs →
  legend_handles (class_entry <$> cs) = inr (class_handle <$> Py.sort Z.ltb cs).
Proof.
  intros Hnd Hcs. unfold legend_handles.
  rewrite comprehension_index by done. simpl.
  rewrite zip_class_entry.
  rewrite (sort_fmap Z.ltb) by done.
  rewrite <- list_fmap_compose.
  change (snd ∘ (λ c, (c, class_entry c))) with class_entry.
  rewrite dict_of_items_classes.
  - rewrite <- !list_fmap_compose, length_fmap.
    rewrite range_0_step_1, comprehension_fmap.
    apply comprehension_lookup.
    intros i c Hc. simpl.
    rewrite (getitem_of_nat _ _ (class_color c)), (getitem_of_nat _ _ (class_name c));
      [done|by rewrite list_lookup_fmap, Hc..].
  - by rewrite sort_perm.
  - by rewrite sort_perm.
Qed.

(** ** The figure [save_piano_roll_fig] draws *)

Lemma min_nonempty (roll : list note_event) :
  roll ≠ [] → ∃ lo, Py.min (ev_pitch <$> roll) = inr lo.
Proof. destruct roll; [done|]. intros _. by eexists. Qed.

Lemma max_nonempty (roll : list note_event) :
  roll ≠ [] → ∃ hi, Py.max (ev_pitch <$> roll) = inr hi.
Proof. destruct roll; [done|]. intros _. by eexists. Qed.

Lemma sorted_by_end_perm roll : sorted_by_end roll ≡ₚ roll.
Proof. apply sort_perm. Qed.

Lemma sorted_by_end_nonempty roll : roll ≠ [] → sorted_by_end roll ≠ [].
Proof.
  intros Hne Hnil. apply Hne, Permutation_nil.
  by rewrite <- Hnil, sorted_by_end_perm.
Qed.

Lemma legend_of_sorted roll :
  legend_handles (class_entry <$> classes_seen (sorted_by_end roll) [])
  = inr (class_handle <$> legend_classes roll).
Proof.
  rewrite legend_handles_classes.
  - f_equal. f_equal. apply sort_classes.
    + apply NoDup_classes_seen, NoDup_nil_2.
    + intros c. rewrite elem_of_classes_seen.
      setoid_rewrite sorted_by_end_perm. set_solver.
  - apply NoDup_classes_seen, NoDup_nil_2.
  - apply Forall_classes_seen, Forall_nil_2.
Qed.

(** What the drawing part does on a list that is not empty: it returns
    [figure_of], and the list object is left sorted. *)
Lemma draw_piano_roll_spec w piano_roll roll lo hi path show_legend :
  heap w !! piano_roll = Some roll →
  Py.min (ev_pitch <$> roll) = inr lo →
  Py.max (ev_pitch <$> roll) = inr hi →
  draw_piano_roll piano_roll path show_legend w
  = (inr (figure_of roll lo hi path show_legend),
     set_heap (<[piano_roll := sorted_by_end roll]> (heap w)) w).
Proof.
  intros Hroll Hlo Hhi.
  assert (roll ≠ []) as Hne by (intros ->; discriminate).
  unfold draw_piano_roll, list_sort_by_end, bind, deref, lift, plt_clf, ret.
  rewrite Hroll, Hlo, Hhi. simpl. rewrite Hroll. simpl.
  rewrite lookup_insert_eq.
  fold end_ltb. fold (sorted_by_end roll).
  change (@nil (string * string)) with (class_entry <$> []).
  rewrite plot_notes_spec by constructor.
  destruct (last (sorted_by_end roll)) as [n|] eqn:Hlast.
  2: { apply last_None in Hlast. by apply sorted_by_end_nonempty in Hlast. }
  pose proof Hlast as [l' Hl']%last_Some.
  assert ((0 <? Z.of_nat (length (sorted_by_end roll))) = true) as ->.
  { apply Z.ltb_lt. rewrite Hl', length_app. simpl. lia. }
  assert (Py.getitem (sorted_by_end roll) (-1) = inr n) as ->.
  { rewrite Hl'. apply getitem_last. }
  simpl.
  unfold figure_of. rewrite Hlast. simpl.
  destruct show_legend; [|done].
  by rewrite legend_of_sorted.
Qed.

(** On the empty list the first statement raises. *)
Lemma draw_piano_roll_empty w piano_roll path show_legend :
  heap w !! piano_roll = Some [] →
  draw_piano_roll piano_roll path show_legend w = (inl ValueError, w).
Proof.
  intros Hroll. unfold draw_piano_roll, bind, deref, lift.
  by rewrite Hroll.
Qed.

(** ** Saving the figure *)

Lemma append_cons (x : ascii) (a b : string) :
  String x a +:+ b = String x (a +:+ b).
Proof. reflexivity. Qed.

Lemma append_assoc (a b c : string) : (a +:+ b) +:+ c = a +:+ (b +:+ c).
Proof.
  induction a as [|x a IH]; [done|].
  by rewrite !append_cons, IH.
Qed.

Lemma append_empty_r (a : string) : a +:+ "" = a.
Proof.
  induction a as [|x a IH]; [done|].
  by rewrite append_cons, IH.
Qed.

Lemma has_slash_append_slash (p r : string) :
  has_slash (p +:+ String "/" r) = true.
Proof.
  induction p as [|c p IH]; [done|].
  rewrite append_cons. simpl. rewrite IH. apply orb_true_r.
Qed.

Lemma dirname_append_slash (p r : string) :
  dirname (p +:+ String "/" r)
  = p +:+ (if has_slash r then String "/" (dirname r) else "").
Proof.
  induction p as [|c p IH]; [done|].
  rewrite !append_cons. simpl.
  by rewrite has_slash_append_slash, IH.
Qed.

(** Without [output_path/piano_rolls] there is no directory for the file,
    whatever slashes [path] holds. *)
Lemma dirname_figure_file_missing (dirs : gset string) output_path path :
  ancestors_exist dirs →
  output_path +:+ "/piano_rolls" ∉ dirs →
  dirname (figure_file output_path path) ∉ dirs.
Proof.
  intros Hanc Hmissing. unfold figure_file.
  change ("/piano_rolls/" +:+ path +:+ ".png")
    with ("/piano_rolls" +:+ String "/" (path +:+ ".png")).
  rewrite <- append_assoc, dirname_append_slash.
  destruct (has_slash (path +:+ ".png")).
  - intros Hin. by apply Hanc in Hin.
  - by rewrite append_empty_r.
Qed.

Lemma has_slash_append (a b : string) :
  has_slash (a +:+ b) = has_slash a || has_slash b.
Proof.
  induction a as [|c a IH]; [done|].
  rewrite append_cons. simpl. by rewrite IH, orb_assoc.
Qed.

Lemma dirname_no_slash (b : string) : has_slash b = false → dirname b = "".
Proof.
  destruct b as [|c b]; [done|]. simpl.
  intros [_ ->]%orb_false_iff. done.
Qed.

Lemma dirname_append_no_slash (a b : string) :
  has_slash b = false → dirname (a +:+ b) = dirname a.
Proof.
  intros Hb. induction a as [|c a IH].
  - by apply dirname_no_slash.
  - rewrite append_cons. simpl.
    by rewrite has_slash_append, Hb, orb_false_r, IH.
Qed.

Lemma dirname_figure_file (output_path path : string) :
  dirname (figure_file output_path path) = figure_directory output_path path.
Proof.
  unfold figure_file, figure_directory.
  change ("/piano_rolls/" +:+ path +:+ ".png")
    with ("/piano_rolls" +:+ String "/" (path +:+ ".png")).
  rewrite <- append_assoc, dirname_append_slash.
  rewrite has_slash_append.
  change (has_slash ".png") with false. rewrite orb_false_r.
  rewrite dirname_append_no_slash by done.
  by rewrite append_assoc.
Qed.

Lemma basename_no_slash (s : string) : has_slash s = false → basename s = s.
Proof.
  destruct s as [|c s]; [done|]. simpl.
  intros [-> ->]%orb_false_iff. done.
Qed.

Lemma basename_append_slash (p r : string) :
  basename (p +:+ String "/" r) = basename r.
Proof.
  induction p as [|c p IH].
  - change ("" +:+ String "/" r) with (String "/" r). simpl.
    destruct (has_slash r) eqn:Hr; [done|]. by rewrite basename_no_slash.
  - rewrite append_cons. simpl. by rewrite has_slash_append_slash.
Qed.

Lemma basename_append_no_slash (a b : string) :
  has_slash b = false → basename (a +:+ b) = basename a +:+ b.
Proof.
  intros Hb. induction a as [|c a IH].
  - by apply basename_no_slash.
  - rewrite append_cons. simpl.
    rewrite has_slash_append, Hb, orb_false_r.
    destruct (has_slash a); [done|]. by destruct (Ascii.eqb c "/").
Qed.

Lemma has_dot_append (a b : string) :
  has_dot (a +:+ b) = has_dot a || has_dot b.
Proof.
  induction a as [|c a IH]; [done|].
  rewrite append_cons. simpl. by rewrite IH, orb_assoc.
Qed.

Lemma lstrip_dots_append (a b : string) :
  lstrip_dots (a +:+ b)
  = if only_dots a then lstrip_dots b else lstrip_dots a +:+ b.
Proof.
  unfold only_dots. induction a as [|c a IH]; [done|].
  rewrite append_cons. simpl. destruct (Ascii.eqb c "."); [done|].
  by rewrite append_cons.
Qed.

Lemma lstrip_dots_has_dot (a : string) :
  only_dots a = false → has_dot (lstrip_dots a +:+ ".png") = true.
Proof.
  intros _. rewrite has_dot_append. apply orb_true_r.
Qed.

Lemma rstrip_dots_png (a : string) :
  rstrip_dots (a +:+ ".png") = a +:+ ".png".
Proof.
  induction a as [|c a IH]; [done|].
  rewrite append_cons. simpl. rewrite IH.
  destruct a as [|c' a]; [done|]. by rewrite append_cons.
Qed.

Lemma figure_file_png (output_path path : string) :
  figure_file output_path path
  = (output_path +:+ "/piano_rolls/" +:+ path) +:+ ".png".
Proof. unfold figure_file. by rewrite !append_assoc. Qed.

Lemma basename_figure_file (output_path path : string) :
  basename (figure_file output_path path) = basename path +:+ ".png".
Proof.
  unfold figure_file.
  change ("/piano_rolls/" +:+ path +:+ ".png")
    with ("/piano_rolls" +:+ String "/" (path +:+ ".png")).
  rewrite <- append_assoc, basename_append_slash.
  by apply basename_append_no_slash.
Qed.

(** The name of the figure: matplotlib adds ['.png'] to it when the last
    component of [path] is empty or is made of dots. *)
Lemma figure_name_spec (output_path path : string) :
  figure_name output_path path
  = figure_file output_path path
    +:+ (if only_dots (basename path) then ".png" else "").
Proof.
  unfold figure_name, savefig_name, no_format.
  rewrite basename_figure_file, lstrip_dots_append.
  rewrite figure_file_png, rstrip_dots_png, String.eqb_refl, orb_false_r.
  destruct (only_dots (basename path)) eqn:Hdots.
  - done.
  - rewrite lstrip_dots_has_dot by done. simpl. by rewrite append_empty_r.
Qed.

Lemma dirname_figure_name (output_path path : string) :
  dirname (figure_name output_path path) = figure_directory output_path path.
Proof.
  rewrite figure_name_spec, dirname_append_no_slash.
  - apply dirname_figure_file.
  - by destruct (only_dots (basename path)).
Qed.

Lemma no_file_in_the_way_existsb (name : string) (w : World) :
  no_file_in_the_way name w →
  existsb (λ p, bool_decide (p ∈ dom (files w))) (slash_prefixes name) = false.
Proof.
  unfold no_file_in_the_way.
  induction 1 as [|p l Hp _ IH]; [done|].
  simpl. by rewrite IH, bool_decide_eq_false_2.
Qed.

(** When nothing else is in the way, the file opens exactly when its
    directory exists and no directory has its name. *)
Lemma open_error_plain (name : string) (w : World) :
  has_char Ascii.zero name = false →
  refused w !! name = None →
  no_file_in_the_way name w →
  open_error name w
  = if bool_decide (dirname name ∈ directories w)
    then if bool_decide (name ∈ directories w)
         then Some IsADirectoryError else None
    else Some FileNotFoundError.
Proof.
  intros Hnul Hrefused Hway. unfold open_error.
  by rewrite Hnul, Hrefused, no_file_in_the_way_existsb.
Qed.

Lemma open_error_missing_directory (name : string) (w : World) :
  has_char Ascii.zero name = false →
  refused w !! name = None →
  no_file_in_the_way name w →
  dirname name ∉ directories w →
  open_error name w = Some FileNotFoundError.
Proof.
  intros Hnul Hrefused Hway Hdir.
  by rewrite open_error_plain, bool_decide_eq_false_2.
Qed.

Lemma save_piano_roll_fig_dangling w piano_roll path output_path show_legend :
  heap w !! piano_roll = None →
  save_piano_roll_fig piano_roll path output_path show_legend w
  = (inl DanglingReference, w).
Proof.
  intros Hroll.
  unfold save_piano_roll_fig, draw_piano_roll, bind, deref.
  by rewrite Hroll.
Qed.

Lemma save_piano_roll_fig_empty w piano_roll path output_path show_legend :
  heap w !! piano_roll = Some [] →
  save_piano_roll_fig piano_roll path output_path show_legend w
  = (inl ValueError, w).
Proof.
  intros Hroll. unfold save_piano_roll_fig, bind.
  by rewrite draw_piano_roll_empty.
Qed.

(** A call on a list that is not empty, by what opening the file gives: the
    figure is written, or [FileNotFoundError] is caught and the message
    printed, or another error escapes. The list is sorted in each case. *)
Lemma save_piano_roll_fig_nonempty
    w piano_roll roll lo hi path output_path show_legend :
  heap w !! piano_roll = Some roll →
  Py.min (ev_pitch <$> roll) = inr lo →
  Py.max (ev_pitch <$> roll) = inr hi →
  save_piano_roll_fig piano_roll path output_path show_legend w
  = let w1 := set_heap (<[piano_roll := sorted_by_end roll]> (heap w)) w in
    match open_error (figure_name output_path path) w with
    | None =>
        (inr (),
         set_files (<[figure_name output_path path
                      := figure_of roll lo hi path show_legend]> (files w)) w1)
    | Some e =>
        if decide (e = FileNotFoundError)
        then (inr (), set_stdout (stdout w ++ [missing_directory_message]) w1)
        else (inl e, w1)
    end.
Proof.
  intros Hroll Hlo Hhi. unfold save_piano_roll_fig, bind.
  rewrite (draw_piano_roll_spec _ _ _ _ _ _ _ Hroll Hlo Hhi).
  unfold try_except, savefig. fold (figure_file output_path path).
  fold (figure_name output_path path). simpl.
  change (open_error (figure_name output_path path)
            (set_heap (<[piano_roll:=sorted_by_end roll]> (heap w)) w))
    with (open_error (figure_name output_path path) w).
  destruct (open_error (figure_name output_path path) w) as [e|]; [|done].
  by destruct (decide (e = FileNotFoundError)).
Qed.

Lemma save_piano_roll_fig_opens
    w piano_roll roll lo hi path output_path show_legend :
  heap w !! piano_roll = Some roll →
  Py.min (ev_pitch <$> roll) = inr lo →
  Py.max (ev_pitch <$> roll) = inr hi →
  open_error (figure_name output_path path) w = None →
  save_piano_roll_fig piano_roll path output_path show_legend w
  = (inr (),
     set_files (<[figure_name output_path path
                  := figure_of roll lo hi path show_legend]> (files w))
       (set_heap (<[piano_roll := sorted_by_end roll]> (heap w)) w)).
Proof.
  intros Hroll Hlo Hhi Hopen.
  rewrite (save_piano_roll_fig_nonempty _ _ _ _ _ _ _ _ Hroll Hlo Hhi).
  simpl. by rewrite Hopen.
Qed.

Lemma save_piano_roll_fig_not_found
    w piano_roll roll lo hi path output_path show_legend :
  heap w !! piano_roll = Some roll →
  Py.min (ev_pitch <$> roll) = inr lo →
  Py.max (ev_pitch <$> roll) = inr hi →
  open_error (figure_name output_path path) w = Some FileNotFoundError →
  save_piano_roll_fig piano_roll path output_path show_legend w
  = (inr (),
     set_stdout (stdout w ++ [missing_directory_message])
       (set_heap (<[piano_roll := sorted_by_end roll]> (heap w)) w)).
Proof.
  intros Hroll Hlo Hhi Hopen.
  rewrite (save_piano_roll_fig_nonempty _ _ _ _ _ _ _ _ Hroll Hlo Hhi).
  simpl. by rewrite Hopen.
Qed.

Lemma save_piano_roll_fig_escapes
    w piano_roll roll lo hi path output_path show_legend e :
  heap w !! piano_roll = Some roll →
  Py.min (ev_pitch <$> roll) = inr lo →
  Py.max (ev_pitch <$> roll) = inr hi →
  open_error (figure_name output_path path) w = Some e →
  e ≠ FileNotFoundError →
  save_piano_roll_fig piano_roll path output_path show_legend w
  = (inl e, set_heap (<[piano_roll := sorted_by_end roll]> (heap w)) w).
Proof.
  intros Hroll Hlo Hhi Hopen He.
  rewrite (save_piano_roll_fig_nonempty _ _ _ _ _ _ _ _ Hroll Hlo Hhi).
  simpl. rewrite Hopen. by rewrite decide_False.
Qed.

(** On a list that is not empty, in a file system where the missing
    directory is all that is in the way, the error is caught: the message is
    printed, no file is written and the call returns. *)
Lemma save_piano_roll_fig_missing_directory
    w piano_roll roll path output_path show_legend :
  heap w !! piano_roll = Some roll →
  roll ≠ [] →
  ancestors_exist (directories w) →
  has_char Ascii.zero (figure_name output_path path) = false →
  refused w !! figure_name output_path path = None →
  no_file_in_the_way (figure_name output_path path) w →
  output_path +:+ "/piano_rolls" ∉ directories w →
  ∃ w', save_piano_roll_fig piano_roll path output_path show_legend w
        = (inr (), w')
      ∧ stdout w' = stdout w ++ [missing_directory_message]
      ∧ files w' = files w
      ∧ directories w' = directories w.
Proof.
  intros Hroll Hne Hanc Hnul Hrefused Hway Hmissing.
  destruct (min_nonempty roll Hne) as [lo Hlo].
  destruct (max_nonempty roll Hne) as [hi Hhi].
  eexists. split.
  - eapply save_piano_roll_fig_not_found; [done..|].
    apply open_error_missing_directory; [done..|].
    rewrite dirname_figure_name, <- dirname_figure_file.
    by apply dirname_figure_file_missing.
  - done.
Qed.

(** * The specification, sentence by sentence *)

(** ** The flattener *)

Section flattener_claims.
Import Music21.

Variable number : Type.
Variable add : number → number → number.
Variable stream : Type.
Variable flatten : stream → flat_stream number.

Lemma append_chord_pitches_spec s e ps acc :
  append_chord_pitches number s e ps acc = acc ++ map (λ p, (p, s, e)) ps.
Proof.
  unfold append_chord_pitches. revert acc.
  induction ps as [|p ps IH]; intros acc; simpl.
  - by rewrite app_nil_r.
  - rewrite IH. by rewrite <- app_assoc.
Qed.

Lemma visit_element_spec acc oe :
  visit_element number add acc oe = acc ++ element_events number add oe.
Proof.
  unfold visit_element, element_events.
  destruct (oe.2); simpl; try by rewrite app_nil_r.
  - done.
  - apply append_chord_pitches_spec.
Qed.

Lemma fold_visit_spec els acc :
  fold_left (visit_element number add) els acc
  = acc ++ flat_map (element_events number add) els.
Proof.
  revert acc. induction els as [|oe els IH]; intros acc; simpl.
  - by rewrite app_nil_r.
  - rewrite IH, visit_element_spec. by rewrite <- app_assoc.
Qed.

Lemma element_events_not_NotRest oe :
  is_NotRest oe.2 = false → element_events number add oe = [].
Proof. unfold element_events. by destruct (oe.2). Qed.

Lemma flat_map_notes (s : flat_stream number) :
  flat_map (element_events number add) (Music21.notes s)
  = flat_map (element_events number add) s.
Proof.
  unfold Music21.notes. induction s as [|oe s IH]; [done|].
  simpl. destruct (is_NotRest oe.2) eqn:H; simpl.
  - by rewrite IH.
  - by rewrite IH, element_events_not_NotRest.
Qed.

(** The function is the concatenation of what each element contributes. *)
Lemma music21_stream_to_piano_roll_flat_map (music_stream : stream) :
  music21_stream_to_piano_roll number add stream flatten music_stream
  = flat_map (element_events number add) (flatten music_stream).
Proof.
  unfold music21_stream_to_piano_roll.
  by rewrite fold_visit_spec, flat_map_notes.
Qed.

Lemma element_events_other oe :
  is_Note_or_Chord oe.2 = false → element_events number add oe = [].
Proof. unfold element_events. by destruct (oe.2). Qed.

Lemma flat_map_note_or_chord (s : flat_stream number) :
  flat_map (element_events number add)
           (List.filter (λ oe, is_Note_or_Chord oe.2) s)
  = flat_map (element_events number add) s.
Proof.
  induction s as [|oe s IH]; [done|].
  simpl. destruct (is_Note_or_Chord oe.2) eqn:H; simpl.
  - by rewrite IH.
  - by rewrite IH, element_events_other.
Qed.

(** C4. A score whose flattened stream holds, among its notes and chords,
    exactly one element, a single note of pitch [p] at offset [t] with
    duration [d], is turned into exactly one tuple, [(p, t, t + d)], the sum
    being the one Python's [+] gives. *)
Theorem single_note_one_tuple (music_stream : stream)
    (p : Z) (t d : number) :
  List.filter (λ oe, is_Note_or_Chord oe.2) (flatten music_stream)
    = [(t, Note p d)] →
  music21_stream_to_piano_roll number add stream flatten music_stream
    = [(p, t, add t d)].
Proof.
  intros Hone.
  rewrite music21_stream_to_piano_roll_flat_map.
  by rewrite <- flat_map_note_or_chord, Hone.
Qed.

(** C5. A chord of [k] pitches at offset [t] with duration [d] contributes
    exactly [k] tuples, one per pitch and in the order of the pitches,
    between the tuples of the elements before it and those of the elements
    after it; each of them starts at [t] and ends at [t + d], the sum being
    the one Python's [+] gives. *)
Theorem chord_k_tuples (music_stream : stream)
    (before after : flat_stream number) (pitches : list Z) (t d : number) :
  flatten music_stream = before ++ (t, Chord pitches d) :: after →
  let chord_tuples : list (tuple number) :=
    (λ p, (p, t, add t d)) <$> pitches in
  music21_stream_to_piano_roll number add stream flatten music_stream
    = fold_left (visit_element number add) (notes before) []
      ++ chord_tuples
      ++ fold_left (visit_element number add) (notes after) []
  ∧ length chord_tuples = length pitches
  ∧ tuple_pitch <$> chord_tuples = pitches
  ∧ Forall (λ n, tuple_start n = t ∧ tuple_end n = add t d) chord_tuples.
Proof.
  intros Hflat chord_tuples. repeat split.
  - rewrite music21_stream_to_piano_roll_flat_map, Hflat.
    by rewrite !fold_visit_spec, !flat_map_notes, flat_map_app.
  - apply length_fmap.
  - unfold chord_tuples. rewrite <- list_fmap_compose.
    apply list_fmap_id.
  - unfold chord_tuples. apply Forall_fmap, Forall_true. by intros p.
Qed.

End flattener_claims.

Lemma single_note_one_tuple_witness :
  music21_stream_to_piano_roll Py.number Py.add demo_score demo_flatten
    one_note_score
  = [(60, Py.add (py_float 0) (Py.Fraction (1 # 3)),
      Py.add (Py.add (py_float 0) (Py.Fraction (1 # 3))) (py_float (1 # 2)))].
Proof.
  apply (single_note_one_tuple Py.number Py.add demo_score demo_flatten
           one_note_score).
  reflexivity.
Defined.

(** The tuple of [one_note_score]: the offset is the float 0.0 + 1/3, which
    is 0.3333333333333333, and the end is that float plus 0.5, which is
    0.8333333333333333 and not 5/6. *)
Example one_note_score_tuple :
  music21_stream_to_piano_roll Py.number Py.add demo_score demo_flatten
    one_note_score
  = [(60, Py.Float (S754_finite false 6004799503160661 (-54)),
      Py.Float (S754_finite false 7505999378950826 (-53)))].
Proof. reflexivity. Qed.

Lemma chord_k_tuples_witness :
  let t := Py.add (py_float 4) (Py.Fraction (1 # 3)) in
  let d := py_float 2 in
  let chord_tuples : list (tuple Py.number) :=
    (λ p, (p, t, Py.add t d)) <$> [60; 64; 67] in
  music21_stream_to_piano_roll Py.number Py.add demo_score demo_flatten
    chord_score
    = fold_left (visit_element Py.number Py.add)
        (Music21.notes
           [(Py.add (py_float 0) (py_float 0), Music21.Note 72 (py_float 1))])
        []
      ++ chord_tuples
      ++ fold_left (visit_element Py.number Py.add)
           (Music21.notes
              [(Py.add (py_float 4) (py_float 3),
                Music21.Rest (py_float 1))])
           []
  ∧ length chord_tuples = length [60; 64; 67]
  ∧ tuple_pitch <$> chord_tuples = [60; 64; 67]
  ∧ Forall (λ n, tuple_start n = t ∧ tuple_end n = Py.add t d) chord_tuples.
Proof.
  apply (chord_k_tuples Py.number Py.add demo_score demo_flatten chord_score).
  reflexivity.
Defined.





Lemma slash_prefixes_complete (p r : string) :
  p ∈ slash_prefixes (p +:+ String "/" r).
Proof.
  induction p as [|c p IH].
  - simpl. set_solver.
  - rewrite append_cons. simpl. apply elem_of_app. right.
    apply list_elem_of_fmap. by exists p.
Qed.

Lemma ancestors_existb_correct (dirs : list string) :
  ancestors_existb dirs = true → ancestors_exist (list_to_set dirs).
Proof.
  unfold ancestors_existb, ancestors_exist.
  rewrite forallb_forall. intros Hdirs p r Hin.
  apply elem_of_list_to_set in Hin. apply elem_of_list_to_set.
  apply list_elem_of_In, Hdirs in Hin.
  rewrite forallb_forall in Hin.
  eapply bool_decide_eq_true_1, Hin, list_elem_of_In, slash_prefixes_complete.
Qed.

(** The handler at work: the list of the examples, a file system without
    [./piano_rolls], and the default [path], which holds slashes. *)
Example missing_directory_is_caught :
  ∃ w', save_piano_roll_fig 0%nat "./piano_rolls/" "." false
          (world_with roll_ties ["."; "./scores"; "./scores/bach"])
        = (inr (), w')
      ∧ stdout w' = [missing_directory_message]
      ∧ files w' = ∅
      ∧ directories w' = list_to_set ["."; "./scores"; "./scores/bach"].
Proof.
  apply (save_piano_roll_fig_missing_directory
           (world_with roll_ties ["."; "./scores"; "./scores/bach"])
           0%nat roll_ties).
  - reflexivity.
  - discriminate.
  - by apply ancestors_existb_correct.
  - reflexivity.
  - reflexivity.
  - apply Forall_forall. intros p _. simpl. set_solver.
  - vm_compute. set_solver.
Qed.

(** ** The renderer *)

Lemma save_piano_roll_fig_heap w piano_roll roll path output_path show_legend :
  heap w !! piano_roll = Some roll →
  heap (save_piano_roll_fig piano_roll path output_path show_legend w).2
  = <[piano_roll := sorted_by_end roll]> (heap w).
Proof.
  intros Hroll. destruct (decide (roll = [])) as [->|Hne].
  - rewrite save_piano_roll_fig_empty by done. simpl.
    symmetry. by apply insert_id.
  - destruct (min_nonempty roll Hne) as [lo Hlo].
    destruct (max_nonempty roll Hne) as [hi Hhi].
    rewrite (save_piano_roll_fig_nonempty _ _ _ _ _ _ _ _ Hroll Hlo Hhi).
    simpl. destruct (open_error (figure_name output_path path) w) as [e|];
      [by destruct (decide (e = FileNotFoundError))|done].
Qed.

(** What opening a file can raise. *)
Lemma open_error_outcomes (name : string) (w : World) (e : exn) :
  open_error name w = Some e →
  e = ValueError ∨ e = PermissionError ∨ e = OSError
  ∨ e = NotADirectoryError ∨ e = IsADirectoryError ∨ e = FileNotFoundError.
Proof.
  unfold open_error. intros H.
  destruct (has_char Ascii.zero name); [naive_solver|].
  destruct (refused w !! name) as [[]|]; [naive_solver..|].
  repeat case_match; naive_solver.
Qed.

(** The ways a call can end. *)
Lemma save_piano_roll_fig_outcomes w piano_roll path output_path show_legend :
  let r := (save_piano_roll_fig piano_roll path output_path show_legend w).1 in
  r = inr () ∨ r = inl ValueError ∨ r = inl DanglingReference
  ∨ r = inl PermissionError ∨ r = inl OSError ∨ r = inl NotADirectoryError
  ∨ r = inl IsADirectoryError.
Proof.
  destruct (heap w !! piano_roll) as [roll|] eqn:Hroll.
  - destruct (decide (roll = [])) as [->|Hne].
    + rewrite save_piano_roll_fig_empty by done. auto.
    + destruct (min_nonempty roll Hne) as [lo Hlo].
      destruct (max_nonempty roll Hne) as [hi Hhi].
      rewrite (save_piano_roll_fig_nonempty _ _ _ _ _ _ _ _ Hroll Hlo Hhi).
      simpl.
      destruct (open_error (figure_name output_path path) w) as [e|] eqn:He;
        [|auto].
      destruct (decide (e = FileNotFoundError)); [auto|]. simpl.
      destruct (open_error_outcomes _ _ _ He) as [->|[->|[->|[->|[->| ->]]]]];
        [auto 10..|done].
  - rewrite save_piano_roll_fig_dangling by done. auto.
Qed.

Lemma plot_notes_total roll ax legend :
  ∃ r, plot_notes roll ax legend = inr r.
Proof.
  revert ax legend.
  induction roll as [|[[pitch start] end_] roll IH]; intros ax legend.
  - by eexists.
  - simpl.
    rewrite getitem_GRAPH_COLORS, getitem_PITCH_CLASSES by apply mod12_in_table.
    simpl. apply IH.
Qed.

Lemma list_filter_sublist {A} (p : A → bool) (l : list A) :
  List.filter p l `sublist_of` l.
Proof.
  induction l as [|x l IH]; simpl; [constructor|].
  destruct (p x); by constructor.
Qed.

Lemma end_ties_not_lt (k : Q) (a b : note_event) :
  Qeq_bool (ev_end a) k = true → Qeq_bool (ev_end b) k = true →
  end_ltb a b = false.
Proof.
  rewrite !Qeq_bool_iff. intros Ha Hb.
  unfold end_ltb. apply Qltb_ge. rewrite Ha, Hb. apply Qle_refl.
Qed.

Lemma sorted_by_end_stable (k : Q) (roll : list note_event) :
  List.filter (λ n, Qeq_bool (ev_end n) k) (sorted_by_end roll)
  = List.filter (λ n, Qeq_bool (ev_end n) k) roll.
Proof. apply sort_filter. apply end_ties_not_lt. Qed.

Lemma sorted_by_end_sorted (roll : list note_event) :
  StronglySorted (λ a b, (ev_end a <= ev_end b)%Q) (sorted_by_end roll).
Proof.
  apply StronglySorted_impl with (not_after end_ltb).
  { intros a b. apply end_not_after_le. }
  apply sort_sorted; [apply end_ltb_asym|apply end_not_after_trans].
Qed.

(** The sorted list is the only stable sort there is: a list in ascending
    order of end time whose events of every end time stand in the order they
    have in [roll] is [sorted_by_end roll], whatever algorithm made it. *)
Lemma ends_sorted_unique (l1 l2 : list note_event) :
  StronglySorted (λ a b, (ev_end a <= ev_end b)%Q) l1 →
  StronglySorted (λ a b, (ev_end a <= ev_end b)%Q) l2 →
  (∀ k : Q,
     List.filter (λ n, Qeq_bool (ev_end n) k) l1
     = List.filter (λ n, Qeq_bool (ev_end n) k) l2) →
  l1 = l2.
Proof.
  intros Hl1. revert l2.
  induction Hl1 as [|x l1 Hl1 IH Hx]; intros l2 Hl2 Hties.
  - destruct l2 as [|y l2]; [done|].
    specialize (Hties (ev_end y)). simpl in Hties.
    by rewrite (proj2 (Qeq_bool_iff _ _) (Qeq_refl _)) in Hties.
  - destruct Hl2 as [|y l2 Hl2 Hy].
    { specialize (Hties (ev_end x)). simpl in Hties.
      by rewrite (proj2 (Qeq_bool_iff _ _) (Qeq_refl _)) in Hties. }
    assert (Qeq_bool (ev_end x) (ev_end x) = true) as Hxx
      by (apply Qeq_bool_iff; reflexivity).
    assert (Qeq_bool (ev_end y) (ev_end y) = true) as Hyy
      by (apply Qeq_bool_iff; reflexivity).
    assert (ev_end y <= ev_end x)%Q as Hyx.
    { pose proof (Hties (ev_end x)) as H. simpl in H. rewrite Hxx in H.
      destruct (Qeq_bool (ev_end y) (ev_end x)) eqn:Hyx.
      - apply Qeq_bool_iff in Hyx. rewrite Hyx. apply Qle_refl.
      - assert (In x (List.filter (λ n, Qeq_bool (ev_end n) (ev_end x)) l2))
          as [Hin _]%filter_In by (rewrite <- H; by left).
        rewrite Forall_forall in Hy. by apply Hy, list_elem_of_In. }
    assert (ev_end x <= ev_end y)%Q as Hxy.
    { pose proof (Hties (ev_end y)) as H. simpl in H. rewrite Hyy in H.
      destruct (Qeq_bool (ev_end x) (ev_end y)) eqn:Hxy.
      - apply Qeq_bool_iff in Hxy. rewrite Hxy. apply Qle_refl.
      - assert (In y (List.filter (λ n, Qeq_bool (ev_end n) (ev_end y)) l1))
          as [Hin _]%filter_In by (rewrite H; by left).
        rewrite Forall_forall in Hx. by apply Hx, list_elem_of_In. }
    assert (Qeq_bool (ev_end y) (ev_end x) = true) as Heq
      by (apply Qeq_bool_iff; by apply Qle_antisym).
    assert (x = y) as <-.
    { pose proof (Hties (ev_end x)) as H. simpl in H.
      rewrite Hxx, Heq in H. congruence. }
    f_equal. apply IH; [done|].
    intros k. specialize (Hties k). simpl in Hties.
    destruct (Qeq_bool (ev_end x) k); congruence.
Qed.

Lemma stable_sort_unique (roll sorted : list note_event) :
  StronglySorted (λ a b, (ev_end a <= ev_end b)%Q) sorted →
  (∀ k : Q,
     List.filter (λ n, Qeq_bool (ev_end n) k) sorted
     = List.filter (λ n, Qeq_bool (ev_end n) k) roll) →
  sorted = sorted_by_end roll.
Proof.
  intros Hsorted Hstable.
  apply ends_sorted_unique; [done|apply sorted_by_end_sorted|].
  intros k. by rewrite Hstable, sorted_by_end_stable.
Qed.

Lemma sorted_by_end_keeps_order (roll l1 l2 l3 : list note_event) a b :
  roll = l1 ++ a :: l2 ++ b :: l3 →
  (ev_end a == ev_end b)%Q →
  ∃ m1 m2 m3, sorted_by_end roll = m1 ++ a :: m2 ++ b :: m3.
Proof.
  intros Hroll Hab.
  set (p := λ n : note_event, Qeq_bool (ev_end n) (ev_end a)).
  assert (p a = true) as Ha by (apply Qeq_bool_iff; reflexivity).
  assert (p b = true) as Hb by (apply Qeq_bool_iff; by symmetry).
  assert ([a; b] `sublist_of` sorted_by_end roll) as Hsub.
  { etrans; [|apply (list_filter_sublist p)].
    unfold p at 1. rewrite sorted_by_end_stable. fold p.
    rewrite Hroll, !List.filter_app. simpl. rewrite Ha.
    rewrite List.filter_app. simpl. rewrite Hb.
    apply sublist_inserts_l. constructor.
    apply sublist_inserts_l. constructor. apply sublist_nil_l. }
  apply sublist_cons_l in Hsub as (m1 & k & -> & Hsub).
  apply sublist_cons_l in Hsub as (m2 & m3 & -> & _).
  by exists m1, m2, m3.
Qed.

(** C1 (the code does not do it). The function is called on the empty list,
    with the directory of the file in place: the call raises [ValueError],
    from [min] on its first line, and leaves the world as it was; it never
    reaches the statement that sets the x-axis bounds to [(0, 1)]. *)
Theorem empty_roll_raises_ValueError :
  save_piano_roll_fig 0%nat "song" "." false
    (world_with [] ["."; "./piano_rolls"])
  = (inl ValueError, world_with [] ["."; "./piano_rolls"]).
Proof. by apply save_piano_roll_fig_empty. Qed.

(** C2, as stated, fails. For notes spanning 60 to 72 the figure that is
    saved has the vertical bounds [(60, 85)]: the upper bound is not a
    multiple of 12, and it is not 72 rounded up to one. *)
Lemma ylim_60_72_is_not_octave_rounded :
  ∃ fig,
    (files (save_piano_roll_fig 0%nat "song" "." false
              (world_with roll_60_72 ["."; "./piano_rolls"])).2
       !! "./piano_rolls/song.png") = Some fig
    ∧ Plt.ylim (Plt.axes fig) = Some (60, 85)
    ∧ Plt.ylim (Plt.axes fig) ≠ Some (octave_floor 60, octave_ceiling 72)
    ∧ 85 `mod` 12 ≠ 0.
Proof.
  eexists. split; [|split; [|split]].
  - erewrite save_piano_roll_fig_opens; [|reflexivity..].
    simpl. apply lookup_insert_eq.
  - reflexivity.
  - discriminate.
  - discriminate.
Qed.

(** C2, amended. For a list that is not empty the lower bound is the lowest
    pitch rounded down to a multiple of 12, and the upper bound is one more
    than the first multiple of 12 strictly above the highest pitch; for
    notes spanning 60 to 72 the bounds are [(60, 85)]. *)
Theorem ylim_octave_bounds w piano_roll roll path show_legend :
  heap w !! piano_roll = Some roll →
  roll ≠ [] →
  ∃ fig w' min_pitch max_pitch,
    draw_piano_roll piano_roll path show_legend w = (inr fig, w')
    ∧ min_pitch ∈ ev_pitch <$> roll
    ∧ max_pitch ∈ ev_pitch <$> roll
    ∧ Forall (λ p, min_pitch ≤ p ≤ max_pitch) (ev_pitch <$> roll)
    ∧ Plt.ylim (Plt.axes fig)
      = Some (min_pitch - min_pitch `mod` 12, max_pitch + 13 - max_pitch `mod` 12)
    ∧ min_pitch - min_pitch `mod` 12 = octave_floor min_pitch
    ∧ octave_floor min_pitch ≤ min_pitch < octave_floor min_pitch + 12
    ∧ max_pitch + 13 - max_pitch `mod` 12 = (octave_floor max_pitch + 12) + 1
    ∧ max_pitch < octave_floor max_pitch + 12 ≤ max_pitch + 12
    ∧ (min_pitch = 60 → max_pitch = 72 →
       Plt.ylim (Plt.axes fig) = Some (60, 85)).
Proof.
  intros Hroll Hne.
  destruct (min_nonempty roll Hne) as [lo Hlo].
  destruct (max_nonempty roll Hne) as [hi Hhi].
  exists (figure_of roll lo hi path show_legend).
  eexists. exists lo, hi.
  split; [by apply draw_piano_roll_spec|].
  destruct roll as [|n roll]; [done|].
  rewrite fmap_cons in *. simpl in Hlo, Hhi.
  injection Hlo as <-. injection Hhi as <-.
  pose proof (fold_min_spec (ev_pitch <$> roll) (ev_pitch n)) as [Hmin_in Hmin].
  pose proof (fold_max_spec (ev_pitch <$> roll) (ev_pitch n)) as [Hmax_in Hmax].
  set (lo := fold_left Z.min (ev_pitch <$> roll) (ev_pitch n)) in *.
  set (hi := fold_left Z.max (ev_pitch <$> roll) (ev_pitch n)) in *.
  pose proof (Z.div_mod lo 12 ltac:(done)) as Hlo.
  pose proof (Z.div_mod hi 12 ltac:(done)) as Hhi.
  pose proof (Z.mod_pos_bound lo 12 ltac:(done)).
  pose proof (Z.mod_pos_bound hi 12 ltac:(done)).
  unfold octave_floor.
  repeat split; try done; try lia.
  - rewrite Forall_forall in *. intros p Hp.
    specialize (Hmin p Hp). specialize (Hmax p Hp). lia.
  - intros -> ->. reflexivity.
Qed.

Lemma ylim_octave_bounds_witness :
  ∃ fig w' min_pitch max_pitch,
    draw_piano_roll 0%nat "song" false (world_with roll_60_72 []) = (inr fig, w')
    ∧ min_pitch ∈ ev_pitch <$> roll_60_72
    ∧ max_pitch ∈ ev_pitch <$> roll_60_72
    ∧ Forall (λ p, min_pitch ≤ p ≤ max_pitch) (ev_pitch <$> roll_60_72)
    ∧ Plt.ylim (Plt.axes fig)
      = Some (min_pitch - min_pitch `mod` 12, max_pitch + 13 - max_pitch `mod` 12)
    ∧ min_pitch - min_pitch `mod` 12 = octave_floor min_pitch
    ∧ octave_floor min_pitch ≤ min_pitch < octave_floor min_pitch + 12
    ∧ max_pitch + 13 - max_pitch `mod` 12 = (octave_floor max_pitch + 12) + 1
    ∧ max_pitch < octave_floor max_pitch + 12 ≤ max_pitch + 12
    ∧ (min_pitch = 60 → max_pitch = 72 →
       Plt.ylim (Plt.axes fig) = Some (60, 85)).
Proof.
  apply (ylim_octave_bounds (world_with roll_60_72 []) 0%nat roll_60_72).
  - reflexivity.
  - discriminate.
Defined.

(** C3 (the code does not do it on the empty list). The function is called
    on the empty list when [./piano_rolls] does not exist: [ValueError]
    escapes, and nothing is printed. *)
Theorem empty_roll_no_directory_raises :
  save_piano_roll_fig 0%nat "song" "." false (world_with [] ["."])
  = (inl ValueError, world_with [] ["."])
  ∧ ("./piano_rolls" ∉ directories (world_with [] ["."]))
  ∧ stdout (world_with [] ["."]) = [].
Proof.
  split; [by apply save_piano_roll_fig_empty|].
  split; [|done]. vm_compute. set_solver.
Qed.

(** C6. Whatever way the call ends, the list object the caller passed holds
    afterwards the events it held before, in ascending order of end time;
    events with equal end times are in the order they had, both as a group
    (for every end time) and two by two; and no other list object has
    changed or appeared. *)
Theorem sort_in_place_stable w piano_roll roll path output_path show_legend :
  heap w !! piano_roll = Some roll →
  let w' := (save_piano_roll_fig piano_roll path output_path show_legend w).2 in
  ∃ sorted,
    heap w' !! piano_roll = Some sorted
    ∧ (∀ other, other ≠ piano_roll → heap w' !! other = heap w !! other)
    ∧ sorted ≡ₚ roll
    ∧ StronglySorted (λ a b, (ev_end a <= ev_end b)%Q) sorted
    ∧ (∀ k : Q,
         List.filter (λ n, Qeq_bool (ev_end n) k) sorted
         = List.filter (λ n, Qeq_bool (ev_end n) k) roll)
    ∧ (∀ a b l1 l2 l3,
         roll = l1 ++ a :: l2 ++ b :: l3 → (ev_end a == ev_end b)%Q →
         ∃ m1 m2 m3, sorted = m1 ++ a :: m2 ++ b :: m3).
Proof.
  intros Hroll w'. exists (sorted_by_end roll).
  unfold w'. rewrite (save_piano_roll_fig_heap _ _ _ _ _ _ Hroll).
  split; [apply lookup_insert_eq|].
  split; [intros other Hne; by apply lookup_insert_ne|].
  split; [apply sorted_by_end_perm|].
  split; [apply sorted_by_end_sorted|].
  split; [intros k; apply sorted_by_end_stable|].
  intros a b l1 l2 l3. apply sorted_by_end_keeps_order.
Qed.

Lemma sort_in_place_stable_witness :
  let w' := (save_piano_roll_fig 0%nat "song" "." true
               (world_with roll_ties ["."])).2 in
  ∃ sorted,
    heap w' !! 0%nat = Some sorted
    ∧ (∀ other, other ≠ 0%nat →
         heap w' !! other = heap (world_with roll_ties ["."]) !! other)
    ∧ sorted ≡ₚ roll_ties
    ∧ StronglySorted (λ a b, (ev_end a <= ev_end b)%Q) sorted
    ∧ (∀ k : Q,
         List.filter (λ n, Qeq_bool (ev_end n) k) sorted
         = List.filter (λ n, Qeq_bool (ev_end n) k) roll_ties)
    ∧ (∀ a b l1 l2 l3,
         roll_ties = l1 ++ a :: l2 ++ b :: l3 → (ev_end a == ev_end b)%Q →
         ∃ m1 m2 m3, sorted = m1 ++ a :: m2 ++ b :: m3).
Proof.
  apply (sort_in_place_stable (world_with roll_ties ["."]) 0%nat roll_ties).
  reflexivity.
Defined.

(** The list [roll_ties], sorted: the two events that end at 1 and the
    two that end at 2 keep their order. *)
Example roll_ties_sorted :
  heap (save_piano_roll_fig 0%nat "song" "." true
          (world_with roll_ties ["."])).2 !! 0%nat
  = Some [(-5, 0%Q, (1 # 2)%Q); (60, 0%Q, 1%Q); (48, 0%Q, 1%Q);
          (67, 1%Q, 2%Q); (72, (1 # 2)%Q, (4 # 2)%Q)].
Proof.
  erewrite save_piano_roll_fig_heap by reflexivity.
  by rewrite lookup_insert_eq.
Qed.

(** C7. The line of an event has the color the palette of 12 colors holds
    at the position [pitch mod 12], so the color depends on the pitch class
    only, and [p] and [p + 12] get the same color. *)
Theorem color_by_pitch_class w piano_roll roll path show_legend :
  heap w !! piano_roll = Some roll →
  roll ≠ [] →
  ∃ fig w',
    draw_piano_roll piano_roll path show_legend w = (inr fig, w')
    ∧ Plt.lines (Plt.axes fig)
      = (λ n, Plt.mkLine2D [ev_start n; ev_end n] [ev_pitch n; ev_pitch n]
                           (class_color (ev_pitch n `mod` 12)) None)
        <$> sorted_by_end roll
    ∧ length GRAPH_COLORS = 12%nat
    ∧ (∀ p : Z, Py.getitem GRAPH_COLORS (p `mod` 12)
                = inr (class_color (p `mod` 12)))
    ∧ (∀ p q : Z, p `mod` 12 = q `mod` 12 →
                  class_color (p `mod` 12) = class_color (q `mod` 12))
    ∧ (∀ p : Z, class_color ((p + 12) `mod` 12) = class_color (p `mod` 12)).
Proof.
  intros Hroll Hne.
  destruct (min_nonempty roll Hne) as [lo Hlo].
  destruct (max_nonempty roll Hne) as [hi Hhi].
  eexists _, _. split; [by apply draw_piano_roll_spec|].
  split; [done|]. split; [done|].
  split; [intros p; apply getitem_GRAPH_COLORS, mod12_in_table|].
  split; [by intros p q ->|].
  intros p. by rewrite mod12_add12.
Qed.

Lemma color_by_pitch_class_witness :
  ∃ fig w',
    draw_piano_roll 0%nat "song" false (world_with roll_ties []) = (inr fig, w')
    ∧ Plt.lines (Plt.axes fig)
      = (λ n, Plt.mkLine2D [ev_start n; ev_end n] [ev_pitch n; ev_pitch n]
                           (class_color (ev_pitch n `mod` 12)) None)
        <$> sorted_by_end roll_ties
    ∧ length GRAPH_COLORS = 12%nat
    ∧ (∀ p : Z, Py.getitem GRAPH_COLORS (p `mod` 12)
                = inr (class_color (p `mod` 12)))
    ∧ (∀ p q : Z, p `mod` 12 = q `mod` 12 →
                  class_color (p `mod` 12) = class_color (q `mod` 12))
    ∧ (∀ p : Z, class_color ((p + 12) `mod` 12) = class_color (p `mod` 12)).
Proof.
  apply (color_by_pitch_class (world_with roll_ties []) 0%nat roll_ties).
  - reflexivity.
  - discriminate.
Defined.

(** C8. With [show_legend] set, the legend has one handle for each pitch
    class that occurs among the events and no other handle; the handle of
    class [c] has the name and the color the two tables hold at position
    [c]; and the handles stand in the order of the table [PITCH_CLASSES]. *)
Theorem legend_one_entry_per_class w piano_roll roll path :
  heap w !! piano_roll = Some roll →
  roll ≠ [] →
  ∃ fig w' handles classes,
    draw_piano_roll piano_roll path true w = (inr fig, w')
    ∧ Plt.legend fig = Some (handles, "outside right")
    ∧ handles
      = (λ c, Plt.mkLine2D [0%Q] [0] (class_color c) (Some (class_name c)))
        <$> classes
    ∧ (∀ c, c ∈ classes ↔ ∃ n, n ∈ roll ∧ ev_pitch n `mod` 12 = c)
    ∧ NoDup classes
    ∧ Forall (λ c, Py.getitem PITCH_CLASSES c = inr (class_name c)
                   ∧ Py.getitem GRAPH_COLORS c = inr (class_color c)) classes
    ∧ Py.comprehension (Py.index PITCH_CLASSES) (class_name <$> classes)
      = inr classes
    ∧ StronglySorted Z.lt classes.
Proof.
  intros Hroll Hne.
  destruct (min_nonempty roll Hne) as [lo Hlo].
  destruct (max_nonempty roll Hne) as [hi Hhi].
  eexists _, _, _, (legend_classes roll).
  split; [by apply draw_piano_roll_spec|].
  split; [done|]. split; [done|].
  split; [apply elem_of_legend_classes|].
  split; [apply legend_classes_NoDup|].
  assert (Forall in_table (legend_classes roll)) as Htable.
  { rewrite Forall_forall. intros c (n & _ & <-)%elem_of_legend_classes.
    apply mod12_in_table. }
  split; [|split; [|apply legend_classes_sorted]].
  - eapply Forall_impl; [exact Htable|]. intros c Hc.
    by rewrite getitem_PITCH_CLASSES, getitem_GRAPH_COLORS.
  - etrans; [|apply (comprehension_index _ Htable)].
    by rewrite !comprehension_fmap.
Qed.

Lemma legend_one_entry_per_class_witness :
  ∃ fig w' handles classes,
    draw_piano_roll 0%nat "song" true (world_with roll_ties []) = (inr fig, w')
    ∧ Plt.legend fig = Some (handles, "outside right")
    ∧ handles
      = (λ c, Plt.mkLine2D [0%Q] [0] (class_color c) (Some (class_name c)))
        <$> classes
    ∧ (∀ c, c ∈ classes ↔ ∃ n, n ∈ roll_ties ∧ ev_pitch n `mod` 12 = c)
    ∧ NoDup classes
    ∧ Forall (λ c, Py.getitem PITCH_CLASSES c = inr (class_name c)
                   ∧ Py.getitem GRAPH_COLORS c = inr (class_color c)) classes
    ∧ Py.comprehension (Py.index PITCH_CLASSES) (class_name <$> classes)
      = inr classes
    ∧ StronglySorted Z.lt classes.
Proof.
  apply (legend_one_entry_per_class (world_with roll_ties []) 0%nat roll_ties).
  - reflexivity.
  - discriminate.
Defined.

(** The legend of [roll_ties]: C for 60, 72 and 48, G for 67 and -5. *)
Example roll_ties_legend :
  match (draw_piano_roll 0%nat "song" true (world_with roll_ties [])).1 with
  | inr fig => Plt.legend fig
  | inl _ => None
  end
  = Some ([Plt.mkLine2D [0%Q] [0] "red" (Some "C");
           Plt.mkLine2D [0%Q] [0] "magenta" (Some "G")], "outside right").
Proof. reflexivity. Qed.

(** C10. For every integer [p], negative or beyond 127 as well, [p mod 12]
    is one of 0, ..., 11 and both tables, of 12 entries each, have an entry
    there; the drawing loop never raises, and no call of the function ends
    in [IndexError]. *)
Theorem pitch_class_index_in_bounds :
  length GRAPH_COLORS = 12%nat
  ∧ length PITCH_CLASSES = 12%nat
  ∧ (∀ p : Z,
       0 ≤ p `mod` 12 < 12
       ∧ (∃ c, GRAPH_COLORS !! Z.to_nat (p `mod` 12) = Some c
               ∧ Py.getitem GRAPH_COLORS (p `mod` 12) = inr c)
       ∧ (∃ n, PITCH_CLASSES !! Z.to_nat (p `mod` 12) = Some n
               ∧ Py.getitem PITCH_CLASSES (p `mod` 12) = inr n))
  ∧ (∀ roll ax legend, ∃ r, plot_notes roll ax legend = inr r)
  ∧ (∀ w piano_roll path output_path show_legend,
       (save_piano_roll_fig piano_roll path output_path show_legend w).1
       ≠ inl IndexError).
Proof.
  split; [done|]. split; [done|].
  split; [|split; [apply plot_notes_total|]].
  - intros p. pose proof (mod12_in_table p) as H.
    split; [exact H|].
    split; eexists.
    + split; [by apply lookup_GRAPH_COLORS|by apply getitem_GRAPH_COLORS].
    + split; [by apply lookup_PITCH_CLASSES|by apply getitem_PITCH_CLASSES].
  - intros w piano_roll path output_path show_legend.
    destruct (save_piano_roll_fig_outcomes w piano_roll path output_path
                show_legend) as [-> | [-> | [-> | [-> | [-> | [-> | ->]]]]]];
      discriminate.
Qed.

(** * More on the two functions and on the program *)

(** ** The flattener *)

Section flattener_more.
Import Music21.

Variable number : Type.
Variable add : number → number → number.
Variable value : number → Q.
Variable stream : Type.
Variable flatten : stream → flat_stream number.

(** X1. Only the notes and the chords count: two scores whose flattened streams
    hold the same notes and chords at the same offsets, whatever rests,
    unpitched elements and markings stand between them, give the same
    list. *)
Theorem only_notes_and_chords_matter (s1 s2 : stream) :
  List.filter (λ oe, is_Note_or_Chord oe.2) (flatten s1)
  = List.filter (λ oe, is_Note_or_Chord oe.2) (flatten s2) →
  music21_stream_to_piano_roll number add stream flatten s1
  = music21_stream_to_piano_roll number add stream flatten s2.
Proof.
  intros Hsame.
  rewrite !music21_stream_to_piano_roll_flat_map.
  rewrite <- (flat_map_note_or_chord number add (flatten s1)).
  rewrite <- (flat_map_note_or_chord number add (flatten s2)).
  by rewrite Hsame.
Qed.

Lemma element_events_length oe :
  length (element_events number add oe) = sounding_pitches oe.2.
Proof.
  unfold element_events. destruct (oe.2); simpl; try done.
  apply length_fmap.
Qed.

Lemma events_length (s : flat_stream number) :
  length (flat_map (element_events number add) s)
  = sum_list ((λ oe, sounding_pitches oe.2) <$> s).
Proof.
  induction s as [|oe s IH]; [done|].
  simpl. by rewrite length_app, element_events_length, IH.
Qed.

Lemma events_nil_iff (s : flat_stream number) :
  flat_map (element_events number add) s = []
  ↔ Forall (λ oe, sounding_pitches oe.2 = 0%nat) s.
Proof.
  induction s as [|oe s IH]; simpl.
  - split; [constructor|done].
  - rewrite Forall_cons, <- IH, <- element_events_length.
    split.
    + intros [-> ->]%app_eq_nil. done.
    + intros [->%nil_length_inv ->]. done.
Qed.

(** X2. The list has one tuple for every note and one for every pitch of
    every chord, and no other. *)
Theorem piano_roll_length (music_stream : stream) :
  length (music21_stream_to_piano_roll number add stream flatten music_stream)
  = sum_list ((λ oe, sounding_pitches oe.2) <$> flatten music_stream).
Proof.
  rewrite music21_stream_to_piano_roll_flat_map.
  apply events_length.
Qed.

(** X5. The list is empty exactly when the flattened stream has no note and
    no chord with a pitch: rests, unpitched elements, markings and chords
    without pitches are all it holds. *)
Theorem piano_roll_empty_iff (music_stream : stream) :
  music21_stream_to_piano_roll number add stream flatten music_stream = []
  ↔ Forall (λ oe, sounding_pitches oe.2 = 0%nat) (flatten music_stream).
Proof.
  rewrite music21_stream_to_piano_roll_flat_map.
  apply events_nil_iff.
Qed.

Lemma elem_of_element_events (n : tuple number) (oe : number * element number) :
  n ∈ element_events number add oe ↔
  ∃ d, n = (tuple_pitch n, oe.1, add oe.1 d)
       ∧ (oe.2 = Note (tuple_pitch n) d
          ∨ ∃ pitches, oe.2 = Chord pitches d ∧ tuple_pitch n ∈ pitches).
Proof.
  destruct oe as [t e]. unfold element_events. simpl.
  destruct e as [midi ql|pitches ql|ql|ql|]; simpl.
  - rewrite list_elem_of_singleton. split.
    + intros ->. exists ql. by split; [|left].
    + intros (d & -> & [[= -> ->]|(ps & [=] & _)]). done.
  - rewrite list_elem_of_fmap. split.
    + intros (p & -> & Hp). exists ql. split; [done|]. right. by exists pitches.
    + intros (d & -> & [[=]|(ps & [= -> ->] & Hp)]). by exists (tuple_pitch n).
  - split; [by intros ?%elem_of_nil|]. intros (d & _ & [[=]|(ps & [=] & _)]).
  - split; [by intros ?%elem_of_nil|]. intros (d & _ & [[=]|(ps & [=] & _)]).
  - split; [by intros ?%elem_of_nil|]. intros (d & _ & [[=]|(ps & [=] & _)]).
Qed.

(** X3. What is in the list: [(p, t, e)] is returned exactly when the flattened
    stream has, at offset [t], a note of pitch [p] or a chord with [p] among
    its pitches, of a duration [d] for which [e] is what the code's own
    [t + d] gives, in the arithmetic of the two numbers. The function
    invents no pitch and loses none. *)
Theorem piano_roll_elem_of (music_stream : stream) (p : Z) (t e : number) :
  (p, t, e)
  ∈ music21_stream_to_piano_roll number add stream flatten music_stream ↔
  ∃ d, e = add t d
       ∧ ((t, Note p d) ∈ flatten music_stream
          ∨ ∃ pitches, (t, Chord pitches d) ∈ flatten music_stream
                       ∧ p ∈ pitches).
Proof.
  rewrite music21_stream_to_piano_roll_flat_map.
  rewrite list_elem_of_In, in_flat_map. split.
  - intros ([t' el] & Hin & Hn).
    apply list_elem_of_In in Hin. apply list_elem_of_In in Hn.
    apply elem_of_element_events in Hn as (d & [= <- ->] & Hel).
    simpl in *. exists d. split; [done|].
    destruct Hel as [->|(ps & -> & Hp)]; [by left|right; by exists ps].
  - intros (d & -> & [Hin|(ps & Hin & Hp)]).
    + exists (t, Note p d). split; [by apply list_elem_of_In|].
      apply list_elem_of_In, elem_of_element_events.
      exists d. by split; [|left].
    + exists (t, Chord ps d). split; [by apply list_elem_of_In|].
      apply list_elem_of_In, elem_of_element_events.
      exists d. split; [done|]. right. by exists ps.
Qed.

Lemma element_events_start n oe :
  n ∈ element_events number add oe → tuple_start n = oe.1.
Proof. intros (d & -> & _)%elem_of_element_events. done. Qed.

(** X4. The list follows the stream: when the offsets of the flattened stream
    never decrease, which is the order music21 keeps a flat stream in, the
    start times of the list never decrease either. The offsets are compared
    by their values, as Python compares a float and a Fraction. *)
Theorem piano_roll_starts_ascend (music_stream : stream) :
  StronglySorted (λ a b, (value a.1 <= value b.1)%Q) (flatten music_stream) →
  StronglySorted (λ a b, (value (tuple_start a) <= value (tuple_start b))%Q)
    (music21_stream_to_piano_roll number add stream flatten music_stream).
Proof.
  rewrite music21_stream_to_piano_roll_flat_map.
  induction 1 as [|oe s Hs IH Hoe]; [constructor|].
  simpl. apply StronglySorted_app_2; [| |done].
  - intros n1 n2 H1 H2.
    rewrite (element_events_start _ _ H1).
    apply list_elem_of_In in H2.
    apply in_flat_map in H2 as (oe' & Hin & H2).
    apply list_elem_of_In in Hin. apply list_elem_of_In in H2.
    rewrite (element_events_start _ _ H2).
    rewrite Forall_forall in Hoe. by apply Hoe.
  - assert (Forall (λ n, tuple_start n = oe.1) (element_events number add oe))
      as Hall.
    { rewrite Forall_forall. intros n Hn. by apply element_events_start. }
    induction Hall as [|n l Hn Hl IHl]; constructor; [done|].
    eapply Forall_impl; [exact Hl|]. simpl. intros m ->. rewrite Hn.
    apply Qle_refl.
Qed.

End flattener_more.

Lemma only_notes_and_chords_matter_witness :
  music21_stream_to_piano_roll Py.number Py.add demo_score demo_flatten
    one_note_score
  = music21_stream_to_piano_roll Py.number Py.add demo_score demo_flatten
      [(py_float 0,
        [(Py.Fraction (1 # 3), Music21.Note 60 (py_float (1 # 2)))])].
Proof.
  apply (only_notes_and_chords_matter Py.number Py.add demo_score demo_flatten).
  reflexivity.
Defined.

Lemma piano_roll_starts_ascend_witness :
  StronglySorted
    (λ a b, (Py.value (tuple_start a) <= Py.value (tuple_start b))%Q)
    (music21_stream_to_piano_roll Py.number Py.add demo_score demo_flatten
       chord_score).
Proof.
  apply (piano_roll_starts_ascend Py.number Py.add Py.value demo_score
           demo_flatten chord_score).
  repeat (apply SSorted_cons;
          [|repeat (apply List.Forall_cons; [vm_compute; discriminate|]);
            apply List.Forall_nil]).
  apply SSorted_nil.
Defined.

(** ** The renderer *)

Lemma slash_prefixes_shorter (s p : string) :
  p ∈ slash_prefixes s → (String.length p < String.length s)%nat.
Proof.
  revert p. induction s as [|c s IH]; intros p; simpl.
  - by intros ?%elem_of_nil.
  - intros [Hp|Hp]%elem_of_app.
    + destruct (Ascii.eqb c "/"); [|by apply elem_of_nil in Hp].
      apply list_elem_of_singleton in Hp as ->. simpl. lia.
    + apply list_elem_of_fmap in Hp as (q & -> & Hq). simpl.
      apply IH in Hq. lia.
Qed.

(** Writing a file does not change what opening it gives. *)
Lemma open_error_written (name : string) (fig : Plt.Figure) (w : World) :
  open_error name (set_files (<[name := fig]> (files w)) w)
  = open_error name w.
Proof.
  unfold open_error. simpl.
  destruct (has_char Ascii.zero name); [done|].
  destruct (refused w !! name) as [[]|]; [done..|].
  assert (existsb (λ p, bool_decide (p ∈ dom (<[name := fig]> (files w))))
                  (slash_prefixes name)
          = existsb (λ p, bool_decide (p ∈ dom (files w)))
                    (slash_prefixes name)) as ->; [|done].
  assert (∀ p, p ∈ slash_prefixes name → p ≠ name) as Hshort.
  { intros p Hp%slash_prefixes_shorter ->. lia. }
  induction (slash_prefixes name) as [|p l IH]; [done|].
  simpl. rewrite IH by (intros q Hq; apply Hshort; by right).
  f_equal. apply bool_decide_ext.
  rewrite dom_insert, elem_of_union, elem_of_singleton.
  specialize (Hshort p ltac:(by left)). naive_solver.
Qed.

(** X6. Which calls return. An empty list raises [ValueError], whatever the
    file system holds. A list that is not empty, of events a score gives and
    with a [path] that matplotlib draws as it is in the title, returns
    exactly when the file of the figure opens or, the one error the function
    catches, [open] raises [FileNotFoundError]; any other error of [open]
    escapes from the call as it is, and nothing else is raised. *)
Theorem save_returns_iff_file_opens
    w piano_roll roll path output_path show_legend :
  heap w !! piano_roll = Some roll →
  Forall score_event roll →
  plain_text path →
  let r := (save_piano_roll_fig piano_roll path output_path show_legend w).1 in
  let opened := open_error (figure_name output_path path) w in
  (roll = [] → r = inl ValueError)
  ∧ (roll ≠ [] →
     (r = inr () ↔ opened = None ∨ opened = Some FileNotFoundError)
     ∧ (∀ e, r = inl e ↔ opened = Some e ∧ e ≠ FileNotFoundError)).
Proof.
  intros Hroll _ _ r opened. unfold r, opened.
  destruct (decide (roll = [])) as [->|Hne].
  { rewrite save_piano_roll_fig_empty by done. simpl. by split. }
  destruct (min_nonempty roll Hne) as [lo Hlo].
  destruct (max_nonempty roll Hne) as [hi Hhi].
  rewrite (save_piano_roll_fig_nonempty _ _ _ _ _ _ _ _ Hroll Hlo Hhi).
  simpl. split; [done|]. intros _.
  destruct (open_error (figure_name output_path path) w) as [e|] eqn:He.
  - destruct (decide (e = FileNotFoundError)) as [->|Hother]; simpl.
    + split; [split; auto|].
      intros e. split; [done|]. by intros [[= <-] ?].
    + split; [split; [done|by intros [|[= ->]]]|].
      intros e'. split; [by intros [= ->]|by intros [[= ->] _]].
  - simpl. split; [split; auto|].
    intros e. split; [done|]. by intros [[=] _].
Qed.

Lemma save_returns_iff_file_opens_witness :
  let r := (save_piano_roll_fig 0%nat "song" "." true
              (world_with roll_60_72 ["."])).1 in
  let opened := open_error (figure_name "." "song")
                  (world_with roll_60_72 ["."]) in
  (roll_60_72 = [] → r = inl ValueError)
  ∧ (roll_60_72 ≠ [] →
     (r = inr () ↔ opened = None ∨ opened = Some FileNotFoundError)
     ∧ (∀ e, r = inl e ↔ opened = Some e ∧ e ≠ FileNotFoundError)).
Proof.
  apply (save_returns_iff_file_opens (world_with roll_60_72 ["."]) 0%nat
           roll_60_72).
  - reflexivity.
  - repeat (apply List.Forall_cons;
            [vm_compute; repeat split; discriminate|]).
    apply List.Forall_nil.
  - reflexivity.
Defined.

(** A regular file named [piano_rolls] stands where the directory should be:
    [NotADirectoryError] escapes from the call, and nothing is printed. *)
Example file_in_the_way_escapes :
  let w := mkWorld {[ 0%nat := roll_60_72 ]} {[ "." ]}
                   {[ "./piano_rolls" := Plt.mkFigure "" (0, 0) Plt.subplots None ]}
                   [] ∅ in
  let r := save_piano_roll_fig 0%nat "song" "." false w in
  r.1 = inl NotADirectoryError ∧ stdout r.2 = [] ∧ files r.2 = files w.
Proof. vm_compute. done. Qed.

(** A [path] with a NUL character: [open] raises [ValueError], which
    escapes, on a list that is not empty. *)
Example nul_in_the_name_escapes :
  let r := save_piano_roll_fig 0%nat (String Ascii.zero "song") "." false
             (world_with roll_60_72 ["."; "./piano_rolls"]) in
  r.1 = inl ValueError ∧ stdout r.2 = [] ∧ files r.2 = ∅.
Proof. vm_compute. done. Qed.

(** X7. Where the figure goes. The file is [output_path/piano_rolls/path.png],
    with one more ['.png'] at its end when the last component of [path] is
    empty or made of dots, where matplotlib finds no extension in the name.
    For a list that is not empty, of events a score gives, and a [path]
    that matplotlib draws as it is in the title: when the file opens, the
    figure that was drawn is written there and nothing is printed; when [open] raises [FileNotFoundError], no file changes and the
    message is printed; the call returns in both cases. Any other error of
    [open] escapes, with no file changed and nothing printed. Where the
    name holds no NUL character, the operating system refuses nothing and no
    regular file stands in the way,
    [open] raises [FileNotFoundError] exactly when the directory of the file
    does not exist, which is [output_path/piano_rolls] only for a [path]
    without a slash and the directory of [path] below it otherwise; and the
    file opens when that directory exists and no directory has the name of
    the file. *)
Theorem figure_saved_where_it_opens
    w piano_roll roll path output_path show_legend :
  heap w !! piano_roll = Some roll →
  roll ≠ [] →
  Forall score_event roll →
  plain_text path →
  let name :=
    (output_path +:+ "/piano_rolls/" +:+ path +:+ ".png")
    +:+ (if only_dots (basename path) then ".png" else "") in
  let directory :=
    output_path +:+ "/piano_rolls"
    +:+ (if has_slash path then String "/" (dirname path) else "") in
  ∃ fig w0 r w',
    draw_piano_roll piano_roll path show_legend w = (inr fig, w0)
    ∧ save_piano_roll_fig piano_roll path output_path show_legend w = (r, w')
    ∧ (open_error name w = None →
       r = inr ()
       ∧ files w' = <[name := fig]> (files w) ∧ stdout w' = stdout w)
    ∧ (open_error name w = Some FileNotFoundError →
       r = inr ()
       ∧ files w' = files w
       ∧ stdout w' = stdout w ++ [missing_directory_message])
    ∧ (∀ e, open_error name w = Some e → e ≠ FileNotFoundError →
            r = inl e ∧ files w' = files w ∧ stdout w' = stdout w)
    ∧ (has_char Ascii.zero name = false → refused w !! name = None →
       no_file_in_the_way name w →
       (open_error name w = Some FileNotFoundError
        ↔ directory ∉ directories w)
       ∧ (open_error name w = None
          ↔ directory ∈ directories w ∧ name ∉ directories w)).
Proof.
  intros Hroll Hne _ _ name directory.
  destruct (min_nonempty roll Hne) as [lo Hlo].
  destruct (max_nonempty roll Hne) as [hi Hhi].
  change directory with (figure_directory output_path path).
  change name
    with (figure_file output_path path
          +:+ (if only_dots (basename path) then ".png" else "")).
  rewrite <- figure_name_spec, <- dirname_figure_name.
  eexists _, _, _, _.
  split; [by apply draw_piano_roll_spec|].
  split; [apply surjective_pairing|].
  rewrite (save_piano_roll_fig_nonempty _ _ _ _ _ _ _ _ Hroll Hlo Hhi).
  simpl.
  split; [by intros ->|]. split; [by intros ->|].
  split. { intros e -> He. by rewrite decide_False. }
  intros Hnul Hrefused Hway. rewrite open_error_plain by done.
  split; repeat case_bool_decide; naive_solver.
Qed.

Lemma figure_saved_where_it_opens_witness :
  let w :=
    world_with roll_60_72
      ["."; "./piano_rolls"; "./piano_rolls/."; "./piano_rolls/./piano_rolls"] in
  let name :=
    ("." +:+ "/piano_rolls/" +:+ "./piano_rolls/" +:+ ".png")
    +:+ (if only_dots (basename "./piano_rolls/") then ".png" else "") in
  let directory :=
    "." +:+ "/piano_rolls"
    +:+ (if has_slash "./piano_rolls/"
         then String "/" (dirname "./piano_rolls/") else "") in
  ∃ fig w0 r w',
    draw_piano_roll 0%nat "./piano_rolls/" false w = (inr fig, w0)
    ∧ save_piano_roll_fig 0%nat "./piano_rolls/" "." false w = (r, w')
    ∧ (open_error name w = None →
       r = inr ()
       ∧ files w' = <[name := fig]> (files w) ∧ stdout w' = stdout w)
    ∧ (open_error name w = Some FileNotFoundError →
       r = inr ()
       ∧ files w' = files w
       ∧ stdout w' = stdout w ++ [missing_directory_message])
    ∧ (∀ e, open_error name w = Some e → e ≠ FileNotFoundError →
            r = inl e ∧ files w' = files w ∧ stdout w' = stdout w)
    ∧ (has_char Ascii.zero name = false → refused w !! name = None →
       no_file_in_the_way name w →
       (open_error name w = Some FileNotFoundError
        ↔ directory ∉ directories w)
       ∧ (open_error name w = None
          ↔ directory ∈ directories w ∧ name ∉ directories w)).
Proof.
  apply (figure_saved_where_it_opens
           (world_with roll_60_72
              ["."; "./piano_rolls"; "./piano_rolls/.";
               "./piano_rolls/./piano_rolls"])
           0%nat roll_60_72).
  - reflexivity.
  - discriminate.
  - repeat (apply List.Forall_cons;
            [vm_compute; repeat split; discriminate|]).
    apply List.Forall_nil.
  - reflexivity.
Defined.

(** The default [path], ['./piano_rolls/']: the name handed to matplotlib is
    [./piano_rolls/./piano_rolls/.png], in which it finds no extension, and
    the figure is written to [./piano_rolls/./piano_rolls/.png.png]. *)
Example default_path_file :
  let r := save_piano_roll_fig 0%nat "./piano_rolls/" "." false
             (world_with roll_60_72
                ["."; "./piano_rolls"; "./piano_rolls/.";
                 "./piano_rolls/./piano_rolls"]) in
  figure_name "." "./piano_rolls/" = "./piano_rolls/./piano_rolls/.png.png"
  ∧ r.1 = inr ()
  ∧ is_Some (files r.2 !! "./piano_rolls/./piano_rolls/.png.png")
  ∧ files r.2 !! "./piano_rolls/./piano_rolls/.png" = None.
Proof.
  split; [reflexivity|].
  erewrite save_piano_roll_fig_opens; [|reflexivity..].
  simpl. split; [done|]. split.
  - change (figure_name "." "./piano_rolls/")
      with "./piano_rolls/./piano_rolls/.png.png".
    rewrite lookup_insert_eq. by eexists.
  - change (figure_name "." "./piano_rolls/")
      with "./piano_rolls/./piano_rolls/.png.png".
    by rewrite lookup_insert_ne.
Qed.

(** X8. What a call never does, however it ends: it creates and removes no
    directory, it writes no file but the one of the figure, which is
    [output_path/piano_rolls/path.png] with one more ['.png'] when the last
    component of [path] is empty or made of dots, it adds no list object to
    the heap and removes none, and it prints nothing but, at most once, the
    message of the missing directory. *)
Theorem save_leaves_the_rest_alone w piano_roll path output_path show_legend :
  let w' := (save_piano_roll_fig piano_roll path output_path show_legend w).2 in
  let name :=
    (output_path +:+ "/piano_rolls/" +:+ path +:+ ".png")
    +:+ (if only_dots (basename path) then ".png" else "") in
  directories w' = directories w
  ∧ (∀ f, f ≠ name → files w' !! f = files w !! f)
  ∧ dom (heap w') = dom (heap w)
  ∧ (∀ other, other ≠ piano_roll → heap w' !! other = heap w !! other)
  ∧ (stdout w' = stdout w
     ∨ stdout w' = stdout w ++ [missing_directory_message]).
Proof.
  intros w' name. unfold w'.
  change name
    with (figure_file output_path path
          +:+ (if only_dots (basename path) then ".png" else "")).
  rewrite <- figure_name_spec.
  destruct (heap w !! piano_roll) as [roll|] eqn:Hroll.
  2: { rewrite save_piano_roll_fig_dangling by done. simpl.
       repeat split; auto. }
  assert (dom (<[piano_roll := sorted_by_end roll]> (heap w)) = dom (heap w))
    as Hdom.
  { rewrite dom_insert_L. apply elem_of_dom_2 in Hroll. set_solver. }
  destruct (decide (roll = [])) as [->|Hne].
  { rewrite save_piano_roll_fig_empty by done. simpl.
    repeat split; auto. }
  destruct (min_nonempty roll Hne) as [lo Hlo].
  destruct (max_nonempty roll Hne) as [hi Hhi].
  rewrite (save_piano_roll_fig_nonempty _ _ _ _ _ _ _ _ Hroll Hlo Hhi).
  simpl.
  destruct (open_error (figure_name output_path path) w) as [e|];
    [destruct (decide (e = FileNotFoundError))|]; simpl.
  - split; [done|]. split; [done|]. split; [done|]. split; [|auto].
    intros other Hother. by apply lookup_insert_ne.
  - split; [done|]. split; [done|]. split; [done|]. split; [|auto].
    intros other Hother. by apply lookup_insert_ne.
  - split; [done|]. split; [|split; [done|split; [|auto]]].
    + intros f Hf. by apply lookup_insert_ne.
    + intros other Hother. by apply lookup_insert_ne.
Qed.

Lemma range_elem_of (start stop step t : Z) :
  0 < step →
  t ∈ Py.range start stop step ↔
  start ≤ t < stop ∧ (t - start) `mod` step = 0.
Proof.
  intros Hstep. unfold Py.range. rewrite list_elem_of_fmap.
  pose proof (Z.mul_div_le (stop - start + step - 1) step Hstep) as Hle.
  pose proof (Z.mod_pos_bound (stop - start + step - 1) step Hstep) as Hmod.
  pose proof (Z.div_mod (stop - start + step - 1) step ltac:(lia)) as Hdm.
  set (n := (stop - start + step - 1) `div` step) in *.
  split.
  - intros (i & -> & Hi%elem_of_seqZ). split; [nia|].
    replace (start + step * i - start) with (i * step) by lia.
    apply Z_mod_mult.
  - intros ([H1 H2] & Ht).
    pose proof (Z.div_mod (t - start) step ltac:(lia)) as Hq.
    rewrite Ht in Hq.
    exists ((t - start) `div` step). split; [lia|].
    apply elem_of_seqZ. nia.
Qed.

Lemma StronglySorted_fmap_seq (f : nat → Z) (a n : nat) :
  (∀ i j, (i < j)%nat → f i < f j) →
  StronglySorted Z.lt (f <$> seq a n).
Proof.
  intros Hf. revert a. induction n as [|n IH]; intros a; [constructor|].
  simpl. constructor; [apply IH|].
  apply Forall_fmap, Forall_forall. intros j Hj%elem_of_seq. simpl.
  apply Hf. lia.
Qed.

Lemma range_sorted (start stop step : Z) :
  0 < step → StronglySorted Z.lt (Py.range start stop step).
Proof.
  intros Hstep. unfold Py.range, seqZ.
  rewrite <- list_fmap_compose. apply StronglySorted_fmap_seq.
  intros i j Hij. simpl. nia.
Qed.

(** X9. The right bound of the x-axis. For a list that is not empty, of events
    a score gives, the left bound is the integer 0, and the right bound is a
    float: the sum, in the floats, of the latest end time of the list,
    converted to a float, and of the float [0.1]. The sum is rounded, so
    that it is not [end + 1/10]. *)
Theorem xlim_from_the_latest_end w piano_roll roll path show_legend :
  heap w !! piano_roll = Some roll →
  roll ≠ [] →
  Forall score_event roll →
  ∃ fig w' latest,
    draw_piano_roll piano_roll path show_legend w = (inr fig, w')
    ∧ latest ∈ roll
    ∧ (∀ n, n ∈ roll → (ev_end n <= ev_end latest)%Q)
    ∧ Plt.xlim (Plt.axes fig)
      = Some (Plt.IntBound 0,
              Plt.FloatBound
                (Py.float_add (Py.float_of_Q (ev_end latest)) Py.tenth)).
Proof.
  intros Hroll Hne _.
  destruct (min_nonempty roll Hne) as [lo Hlo].
  destruct (max_nonempty roll Hne) as [hi Hhi].
  destruct (last (sorted_by_end roll)) as [latest|] eqn:Hlast.
  2: { apply last_None in Hlast. by apply sorted_by_end_nonempty in Hlast. }
  pose proof Hlast as [l' Hl']%last_Some.
  assert (∀ n, n ∈ roll → (ev_end n <= ev_end latest)%Q) as Hmax.
  { intros n Hn. rewrite <- sorted_by_end_perm, Hl' in Hn.
    pose proof (sorted_by_end_sorted roll) as Hsorted. rewrite Hl' in Hsorted.
    apply elem_of_app in Hn as [Hn|Hn%list_elem_of_singleton].
    - eapply (StronglySorted_app_1_elem_of _ _ _ _ _ Hsorted); [done|].
      by apply list_elem_of_singleton.
    - subst n. apply Qle_refl. }
  eexists _, _, latest.
  split; [by apply draw_piano_roll_spec|].
  split. { rewrite <- sorted_by_end_perm, Hl'. set_solver. }
  split; [done|]. simpl. by rewrite Hlast.
Qed.

Lemma xlim_from_the_latest_end_witness :
  ∃ fig w' latest,
    draw_piano_roll 0%nat "song" false (world_with roll_60_72 [])
      = (inr fig, w')
    ∧ latest ∈ roll_60_72
    ∧ (∀ n, n ∈ roll_60_72 → (ev_end n <= ev_end latest)%Q)
    ∧ Plt.xlim (Plt.axes fig)
      = Some (Plt.IntBound 0,
              Plt.FloatBound
                (Py.float_add (Py.float_of_Q (ev_end latest)) Py.tenth)).
Proof.
  apply (xlim_from_the_latest_end (world_with roll_60_72 []) 0%nat roll_60_72).
  - reflexivity.
  - discriminate.
  - repeat (apply List.Forall_cons;
            [vm_compute; repeat split; discriminate|]).
    apply List.Forall_nil.
Defined.

(** The right bound of [roll_ties], whose latest end is 2: the float
    [2.1], which is 4728779608739021 / 2 ^ 51. *)
Example roll_ties_xlim :
  match (draw_piano_roll 0%nat "song" false (world_with roll_ties [])).1 with
  | inr fig => Plt.xlim (Plt.axes fig)
  | inl _ => None
  end
  = Some (Plt.IntBound 0, Plt.FloatBound (S754_finite false 4728779608739021 (-51))).
Proof. reflexivity. Qed.

(** The sum is rounded: from an end of [2 ** 50] the right bound is that
    end itself, and the latest event ends on it, not before it. *)
Example xlim_at_2_pow_50 :
  match (draw_piano_roll 0%nat "song" false
           (world_with [(60, 0%Q, inject_Z (2 ^ 50))] [])).1 with
  | inr fig =>
      match Plt.xlim (Plt.axes fig) with
      | Some (_, Plt.FloatBound x) => Qred <$> Py.float_value x
      | _ => None
      end
  | inl _ => None
  end
  = Some (inject_Z (2 ^ 50)).
Proof. vm_compute. reflexivity. Qed.

(** X10. The ticks of the y-axis are the octave lines. For a list that is not
    empty the ticks are the multiples of 12 inside the vertical bounds, in
    ascending order, each with its label; the first one is the lower bound,
    the last one is the upper bound less one, and every pitch of the list
    lies from the first tick up to, and not on, the last one. *)
Theorem yticks_are_the_octave_lines w piano_roll roll path show_legend :
  heap w !! piano_roll = Some roll →
  roll ≠ [] →
  ∃ fig w' lo hi ticks,
    draw_piano_roll piano_roll path show_legend w = (inr fig, w')
    ∧ Plt.ylim (Plt.axes fig) = Some (lo, hi)
    ∧ Plt.yticks (Plt.axes fig) = Some ticks
    ∧ Plt.yticklabels (Plt.axes fig) = Some (ytick_label <$> ticks)
    ∧ (∀ t, t ∈ ticks ↔ lo ≤ t < hi ∧ t `mod` 12 = 0)
    ∧ StronglySorted Z.lt ticks
    ∧ lo ∈ ticks
    ∧ hi - 1 ∈ ticks
    ∧ (∀ n, n ∈ roll → lo ≤ ev_pitch n < hi - 1).
Proof.
  intros Hroll Hne.
  destruct (min_nonempty roll Hne) as [m Hm].
  destruct (max_nonempty roll Hne) as [M HM].
  set (lo := m - m `mod` 12). set (hi := M + 13 - M `mod` 12).
  exists (figure_of roll m M path show_legend).
  eexists. exists lo, hi, (Py.range lo hi 12).
  split; [by apply draw_piano_roll_spec|].
  split; [done|]. split; [done|]. split; [done|].
  pose proof (Z.div_mod m 12 ltac:(done)) as Hdm.
  pose proof (Z.div_mod M 12 ltac:(done)) as HdM.
  pose proof (Z.mod_pos_bound m 12 ltac:(done)) as Hbm.
  pose proof (Z.mod_pos_bound M 12 ltac:(done)) as HbM.
  assert (∀ t, (t - lo) `mod` 12 = t `mod` 12) as Hshift.
  { intros t. replace (t - lo) with (t + (- (m `div` 12)) * 12)
      by (unfold lo; lia).
    apply Z.mod_add. done. }
  assert (∀ t, t ∈ Py.range lo hi 12 ↔ lo ≤ t < hi ∧ t `mod` 12 = 0) as Hticks.
  { intros t. rewrite range_elem_of by done. by rewrite Hshift. }
  assert (lo `mod` 12 = 0) as Hlo0.
  { replace lo with ((m `div` 12) * 12) by (unfold lo; lia).
    apply Z_mod_mult. }
  assert ((hi - 1) `mod` 12 = 0) as Hhi0.
  { replace (hi - 1) with ((M `div` 12 + 1) * 12) by (unfold hi; lia).
    apply Z_mod_mult. }
  destruct roll as [|n0 roll]; [done|].
  rewrite fmap_cons in Hm, HM. simpl in Hm, HM.
  injection Hm as Hm. injection HM as HM.
  pose proof (fold_min_spec (ev_pitch <$> roll) (ev_pitch n0)) as [Hmin_in Hmin].
  pose proof (fold_max_spec (ev_pitch <$> roll) (ev_pitch n0)) as [Hmax_in Hmax].
  rewrite Hm in Hmin_in, Hmin. rewrite HM in Hmax_in, Hmax.
  assert (m ≤ M) as HmM.
  { rewrite Forall_forall in Hmax. by apply Hmax. }
  split; [done|]. split; [by apply range_sorted|].
  split; [apply Hticks; unfold lo, hi in *; lia|].
  split; [apply Hticks; unfold lo, hi in *; lia|].
  intros n Hn.
  assert (ev_pitch n ∈ ev_pitch n0 :: (ev_pitch <$> roll)) as Hp.
  { rewrite <- fmap_cons. by apply list_elem_of_fmap_2. }
  rewrite Forall_forall in Hmin, Hmax.
  specialize (Hmin _ Hp). specialize (Hmax _ Hp).
  unfold lo, hi. lia.
Qed.

Lemma yticks_are_the_octave_lines_witness :
  ∃ fig w' lo hi ticks,
    draw_piano_roll 0%nat "song" false (world_with roll_ties [])
      = (inr fig, w')
    ∧ Plt.ylim (Plt.axes fig) = Some (lo, hi)
    ∧ Plt.yticks (Plt.axes fig) = Some ticks
    ∧ Plt.yticklabels (Plt.axes fig) = Some (ytick_label <$> ticks)
    ∧ (∀ t, t ∈ ticks ↔ lo ≤ t < hi ∧ t `mod` 12 = 0)
    ∧ StronglySorted Z.lt ticks
    ∧ lo ∈ ticks
    ∧ hi - 1 ∈ ticks
    ∧ (∀ n, n ∈ roll_ties → lo ≤ ev_pitch n < hi - 1).
Proof.
  apply (yticks_are_the_octave_lines (world_with roll_ties []) 0%nat roll_ties).
  - reflexivity.
  - discriminate.
Defined.

(** The ticks of [roll_ties], whose pitches go from -5 to 72. *)
Example roll_ties_yticks :
  match (draw_piano_roll 0%nat "song" false (world_with roll_ties [])).1 with
  | inr fig => (Plt.yticks (Plt.axes fig), Plt.yticklabels (Plt.axes fig))
  | inl _ => (None, None)
  end
  = (Some [-12; 0; 12; 24; 36; 48; 60; 72; 84],
     Some ["C-2-(-12)"; "C-1-(0)"; "C0-(12)"; "C1-(24)"; "C2-(36)"; "C3-(48)";
           "C4-(60)"; "C5-(72)"; "C6-(84)"]).
Proof. reflexivity. Qed.

Lemma sort_of_sorted {A} (lt : A → A → bool) (l : list A) :
  StronglySorted (not_after lt) l → Py.sort lt l = l.
Proof.
  induction 1 as [|x l Hl IH Hx]; [done|].
  simpl. rewrite IH. destruct Hx as [|y l Hy _]; [done|].
  simpl. unfold not_after in Hy. by rewrite Hy.
Qed.

Lemma sorted_by_end_idemp roll :
  sorted_by_end (sorted_by_end roll) = sorted_by_end roll.
Proof.
  apply sort_of_sorted, sort_sorted;
    [apply end_ltb_asym|apply end_not_after_trans].
Qed.

Lemma min_perm (l l' : list Z) (m : Z) :
  l ≡ₚ l' → Py.min l = inr m → Py.min l' = inr m.
Proof.
  intros Hperm Hm.
  destruct l as [|x l]; [done|]. injection Hm as Hm.
  destruct l' as [|x' l']; [by apply Permutation_nil_r in Hperm|].
  simpl. f_equal.
  pose proof (fold_min_spec l x) as [Hin Hle].
  pose proof (fold_min_spec l' x') as [Hin' Hle'].
  rewrite Hm in Hin, Hle. rewrite Forall_forall in Hle, Hle'.
  rewrite Hperm in Hin. rewrite <- Hperm in Hin'.
  specialize (Hle _ Hin'). specialize (Hle' _ Hin). lia.
Qed.

Lemma max_perm (l l' : list Z) (m : Z) :
  l ≡ₚ l' → Py.max l = inr m → Py.max l' = inr m.
Proof.
  intros Hperm Hm.
  destruct l as [|x l]; [done|]. injection Hm as Hm.
  destruct l' as [|x' l']; [by apply Permutation_nil_r in Hperm|].
  simpl. f_equal.
  pose proof (fold_max_spec l x) as [Hin Hle].
  pose proof (fold_max_spec l' x') as [Hin' Hle'].
  rewrite Hm in Hin, Hle. rewrite Forall_forall in Hle, Hle'.
  rewrite Hperm in Hin. rewrite <- Hperm in Hin'.
  specialize (Hle _ Hin'). specialize (Hle' _ Hin). lia.
Qed.

Lemma legend_classes_perm roll roll' :
  roll ≡ₚ roll' → legend_classes roll = legend_classes roll'.
Proof.
  intros Hperm. unfold legend_classes. apply List.filter_ext. intros c.
  apply eq_true_iff_eq. rewrite !present_class_spec.
  by setoid_rewrite Hperm.
Qed.

Lemma figure_of_sorted roll lo hi path show_legend :
  figure_of (sorted_by_end roll) lo hi path show_legend
  = figure_of roll lo hi path show_legend.
Proof.
  unfold figure_of.
  by rewrite sorted_by_end_idemp, (legend_classes_perm _ _ (sorted_by_end_perm roll)).
Qed.

(** X11. Drawing again changes nothing. A second call with the same arguments
    ends the way the first one did and leaves the list object, the files and
    the directories as the first one left them: the list is sorted already
    and the figure written is the same. *)
Theorem rendering_twice_is_rendering_once
    w piano_roll roll path output_path show_legend :
  heap w !! piano_roll = Some roll →
  let first := save_piano_roll_fig piano_roll path output_path show_legend w in
  let second :=
    save_piano_roll_fig piano_roll path output_path show_legend first.2 in
  second.1 = first.1
  ∧ heap second.2 = heap first.2
  ∧ files second.2 = files first.2
  ∧ directories second.2 = directories first.2.
Proof.
  intros Hroll first second. unfold second, first.
  destruct (decide (roll = [])) as [->|Hne].
  { rewrite (save_piano_roll_fig_empty w) by done. simpl.
    by rewrite (save_piano_roll_fig_empty w). }
  destruct (min_nonempty roll Hne) as [lo Hlo].
  destruct (max_nonempty roll Hne) as [hi Hhi].
  pose proof (min_perm _ _ _
    (fmap_Permutation ev_pitch _ _ (symmetry (sorted_by_end_perm roll))) Hlo)
    as Hlo'.
  pose proof (max_perm _ _ _
    (fmap_Permutation ev_pitch _ _ (symmetry (sorted_by_end_perm roll))) Hhi)
    as Hhi'.
  set (name := figure_name output_path path).
  destruct (open_error name w) as [e|] eqn:Hopen;
    [destruct (decide (e = FileNotFoundError)) as [->|He]|].
  - rewrite (save_piano_roll_fig_not_found _ _ _ _ _ _ _ _ Hroll Hlo Hhi Hopen).
    simpl.
    erewrite save_piano_roll_fig_not_found;
      [|simpl; apply lookup_insert_eq|exact Hlo'|exact Hhi'|exact Hopen].
    simpl. rewrite sorted_by_end_idemp.
    by rewrite !insert_insert_eq.
  - rewrite (save_piano_roll_fig_escapes _ _ _ _ _ _ _ _ _ Hroll Hlo Hhi Hopen He).
    simpl.
    erewrite save_piano_roll_fig_escapes;
      [|simpl; apply lookup_insert_eq|exact Hlo'|exact Hhi'|exact Hopen|exact He].
    simpl. rewrite sorted_by_end_idemp.
    by rewrite !insert_insert_eq.
  - rewrite (save_piano_roll_fig_opens _ _ _ _ _ _ _ _ Hroll Hlo Hhi Hopen).
    simpl.
    erewrite save_piano_roll_fig_opens;
      [|simpl; apply lookup_insert_eq|exact Hlo'|exact Hhi'|].
    + simpl. rewrite figure_of_sorted, sorted_by_end_idemp.
      by rewrite !insert_insert_eq.
    + fold name.
      etrans; [|exact Hopen].
      apply (open_error_written name _
               (set_heap (<[piano_roll := sorted_by_end roll]> (heap w)) w)).
Qed.

Lemma rendering_twice_is_rendering_once_witness :
  let first :=
    save_piano_roll_fig 0%nat "song" "." true
      (world_with roll_ties ["."; "./piano_rolls"]) in
  let second := save_piano_roll_fig 0%nat "song" "." true first.2 in
  second.1 = first.1
  ∧ heap second.2 = heap first.2
  ∧ files second.2 = files first.2
  ∧ directories second.2 = directories first.2.
Proof.
  apply (rendering_twice_is_rendering_once
           (world_with roll_ties ["."; "./piano_rolls"]) 0%nat roll_ties).
  reflexivity.
Defined.

(** X12. The legend tells the colors of the lines. With [show_legend] set, every
    event of the list has a line at its pitch, and the legend has a handle
    with the color of that line and with the name the table [PITCH_CLASSES]
    holds for its pitch class; and no handle shows a color that no line
    has. *)
Theorem legend_matches_lines w piano_roll roll path :
  heap w !! piano_roll = Some roll →
  roll ≠ [] →
  ∃ fig w' handles,
    draw_piano_roll piano_roll path true w = (inr fig, w')
    ∧ Plt.legend fig = Some (handles, "outside right")
    ∧ (∀ n, n ∈ roll →
         ∃ line handle name,
           line ∈ Plt.lines (Plt.axes fig)
           ∧ Plt.xdata line = [ev_start n; ev_end n]
           ∧ Plt.ydata line = [ev_pitch n; ev_pitch n]
           ∧ handle ∈ handles
           ∧ Plt.color handle = Plt.color line
           ∧ Py.getitem PITCH_CLASSES (ev_pitch n `mod` 12) = inr name
           ∧ Plt.label handle = Some name)
    ∧ (∀ handle, handle ∈ handles →
         ∃ line, line ∈ Plt.lines (Plt.axes fig)
                 ∧ Plt.color line = Plt.color handle).
Proof.
  intros Hroll Hne.
  destruct (min_nonempty roll Hne) as [lo Hlo].
  destruct (max_nonempty roll Hne) as [hi Hhi].
  eexists _, _, _.
  split; [by apply draw_piano_roll_spec|].
  split; [done|]. simpl. split.
  - intros n Hn.
    exists (note_line n), (class_handle (ev_pitch n `mod` 12)),
           (class_name (ev_pitch n `mod` 12)).
    split. { apply list_elem_of_fmap_2. by rewrite sorted_by_end_perm. }
    split; [done|]. split; [done|].
    split. { apply list_elem_of_fmap_2, elem_of_legend_classes. by exists n. }
    split; [done|].
    split; [apply getitem_PITCH_CLASSES, mod12_in_table|done].
  - intros handle (c & -> & Hc)%list_elem_of_fmap.
    apply elem_of_legend_classes in Hc as (n & Hn & <-).
    exists (note_line n). split; [|done].
    apply list_elem_of_fmap_2. by rewrite sorted_by_end_perm.
Qed.

Lemma legend_matches_lines_witness :
  ∃ fig w' handles,
    draw_piano_roll 0%nat "song" true (world_with roll_ties [])
      = (inr fig, w')
    ∧ Plt.legend fig = Some (handles, "outside right")
    ∧ (∀ n, n ∈ roll_ties →
         ∃ line handle name,
           line ∈ Plt.lines (Plt.axes fig)
           ∧ Plt.xdata line = [ev_start n; ev_end n]
           ∧ Plt.ydata line = [ev_pitch n; ev_pitch n]
           ∧ handle ∈ handles
           ∧ Plt.color handle = Plt.color line
           ∧ Py.getitem PITCH_CLASSES (ev_pitch n `mod` 12) = inr name
           ∧ Plt.label handle = Some name)
    ∧ (∀ handle, handle ∈ handles →
         ∃ line, line ∈ Plt.lines (Plt.axes fig)
                 ∧ Plt.color line = Plt.color handle).
Proof.
  apply (legend_matches_lines (world_with roll_ties []) 0%nat roll_ties).
  - reflexivity.
  - discriminate.
Defined.

(** ** The program *)

Lemma alloc_fresh (l : list note_event) (w : World) :
  heap w !! fresh (dom (heap w)) = None.
Proof. apply not_elem_of_dom, is_fresh. Qed.

Section program_facts.

Variable number : Type.
Variable add : number → number → number.
Variable value : number → Q.
Variable stream : Type.
Variable flatten : stream → Music21.flat_stream number.
Variable parse : string → M stream.

(** X13. A score without a note and without a pitch in a chord stops the
    program. When the parser returns such a score, only rests and markings
    say, the list of tuples is empty and [ValueError] escapes from the
    program; no file is written and nothing is printed. *)
Theorem main_raises_without_notes (music_sheet_path : string)
    (w w1 : World) (music_sheet : stream) :
  parse music_sheet_path w = (inr music_sheet, w1) →
  Forall (λ oe, sounding_pitches oe.2 = 0%nat) (flatten music_sheet) →
  ∃ w2,
    main number add value stream flatten parse music_sheet_path w
    = (inl ValueError, w2)
    ∧ files w2 = files w1
    ∧ stdout w2 = stdout w1
    ∧ directories w2 = directories w1.
Proof.
  intros Hparse Hsilent.
  apply (events_nil_iff number add) in Hsilent.
  rewrite <- music21_stream_to_piano_roll_flat_map in Hsilent.
  unfold main, bind. rewrite Hparse. unfold alloc. rewrite Hsilent.
  eexists. split.
  { apply save_piano_roll_fig_empty. simpl. apply lookup_insert_eq. }
  done.
Qed.

(** X14. A score with a note, or with a pitch in a chord, is drawn. The figure
    has one line for every tuple of the score, the path of the score in its
    title and no legend. Its file is [./piano_rolls/music_sheet_path.png],
    with one more ['.png'] when the last component of the path is empty or
    made of dots. For the events a score gives, and a path that matplotlib
    draws as it is in the title: when the file opens the program returns, with the figure written there and nothing printed; when
    [open] raises [FileNotFoundError] the program returns, with the message
    printed and no file written; any other error of [open] escapes from the
    program, with no file written and nothing printed. The directories, and
    the list objects that were there, are as they were. *)
Theorem main_draws_the_score (music_sheet_path : string)
    (w w1 : World) (music_sheet : stream) :
  parse music_sheet_path w = (inr music_sheet, w1) →
  ¬ Forall (λ oe, sounding_pitches oe.2 = 0%nat) (flatten music_sheet) →
  Forall score_event
    (tuple_values number value
       <$> music21_stream_to_piano_roll number add stream flatten music_sheet) →
  plain_text music_sheet_path →
  let name :=
    ("." +:+ "/piano_rolls/" +:+ music_sheet_path +:+ ".png")
    +:+ (if only_dots (basename music_sheet_path) then ".png" else "") in
  ∃ r w2 fig,
    main number add value stream flatten parse music_sheet_path w = (r, w2)
    ∧ length (Plt.lines (Plt.axes fig))
      = sum_list ((λ oe, sounding_pitches oe.2) <$> flatten music_sheet)
    ∧ Plt.title (Plt.axes fig) = "Piano roll for " +:+ music_sheet_path
    ∧ Plt.legend fig = None
    ∧ (open_error name w1 = None →
       r = inr ()
       ∧ files w2 = <[name := fig]> (files w1) ∧ stdout w2 = stdout w1)
    ∧ (open_error name w1 = Some FileNotFoundError →
       r = inr ()
       ∧ files w2 = files w1
       ∧ stdout w2 = stdout w1 ++ [missing_directory_message])
    ∧ (∀ e, open_error name w1 = Some e → e ≠ FileNotFoundError →
            r = inl e ∧ files w2 = files w1 ∧ stdout w2 = stdout w1)
    ∧ directories w2 = directories w1
    ∧ (∀ r l, heap w1 !! r = Some l → heap w2 !! r = Some l).
Proof.
  intros Hparse Hsounds _ _ name.
  rewrite <- (events_nil_iff number add) in Hsounds.
  rewrite <- music21_stream_to_piano_roll_flat_map in Hsounds.
  assert (length (music21_stream_to_piano_roll number add stream flatten
                    music_sheet)
          = sum_list ((λ oe, sounding_pitches oe.2) <$> flatten music_sheet))
    as Hlength.
  { rewrite music21_stream_to_piano_roll_flat_map. apply events_length. }
  set (tuples := music21_stream_to_piano_roll number add stream flatten
                   music_sheet) in *.
  set (roll := tuple_values number value <$> tuples).
  assert (roll ≠ []) as Hne.
  { unfold roll. by destruct tuples. }
  destruct (min_nonempty roll Hne) as [lo Hlo].
  destruct (max_nonempty roll Hne) as [hi Hhi].
  change name
    with (figure_file "." music_sheet_path
          +:+ (if only_dots (basename music_sheet_path) then ".png" else "")).
  rewrite <- figure_name_spec.
  unfold main, bind. rewrite Hparse. unfold alloc. fold tuples. fold roll.
  set (r := fresh (dom (heap w1))).
  set (w1' := set_heap (<[r := roll]> (heap w1)) w1).
  assert (heap w1' !! r = Some roll) as Hr by apply lookup_insert_eq.
  assert (∀ r' l, heap w1 !! r' = Some l → r ≠ r') as Hfresh.
  { intros r' l Hl Heq. rewrite <- Heq in Hl. unfold r in Hl.
    by rewrite (alloc_fresh roll) in Hl. }
  eexists _, _, (figure_of roll lo hi music_sheet_path false).
  split; [apply surjective_pairing|].
  split.
  { simpl. rewrite length_fmap, sorted_by_end_perm. unfold roll.
    by rewrite length_fmap. }
  split; [done|]. split; [done|].
  assert (∀ r' l, heap w1 !! r' = Some l →
            heap (save_piano_roll_fig r music_sheet_path "." false w1').2 !! r'
            = Some l) as Hkept.
  { intros r' l Hl.
    rewrite (save_piano_roll_fig_heap _ _ _ _ _ _ Hr).
    unfold w1'. simpl.
    rewrite !lookup_insert_ne by by eapply Hfresh. done. }
  rewrite (save_piano_roll_fig_nonempty _ _ _ _ _ _ _ _ Hr Hlo Hhi) in *.
  change (open_error (figure_name "." music_sheet_path) w1')
    with (open_error (figure_name "." music_sheet_path) w1) in *.
  simpl in *.
  split; [by intros ->|]. split; [by intros ->|].
  split. { intros e -> He. by rewrite decide_False. }
  split; [|exact Hkept].
  destruct (open_error (figure_name "." music_sheet_path) w1) as [e|];
    [by destruct (decide (e = FileNotFoundError))|done].
Qed.

End program_facts.

Lemma main_raises_without_notes_witness :
  ∃ w2,
    main Py.number Py.add Py.value (Music21.flat_stream Py.number) id
      demo_parse "rests.xml" (world_with roll_ties ["."; "./piano_rolls"])
    = (inl ValueError, w2)
    ∧ files w2 = files (world_with roll_ties ["."; "./piano_rolls"])
    ∧ stdout w2 = stdout (world_with roll_ties ["."; "./piano_rolls"])
    ∧ directories w2
      = directories (world_with roll_ties ["."; "./piano_rolls"]).
Proof.
  apply (main_raises_without_notes Py.number Py.add Py.value
           (Music21.flat_stream Py.number) id demo_parse
           "rests.xml" (world_with roll_ties ["."; "./piano_rolls"]) _
           [(py_float 0, Music21.Rest (py_float 4));
            (py_float 4, Music21.Marking)]).
  - reflexivity.
  - repeat constructor.
Defined.

Lemma main_draws_the_score_witness :
  let w1 := world_with roll_ties ["."; "./piano_rolls"] in
  let name :=
    ("." +:+ "/piano_rolls/" +:+ "scores/chord.xml" +:+ ".png")
    +:+ (if only_dots (basename "scores/chord.xml") then ".png" else "") in
  ∃ r w2 fig,
    main Py.number Py.add Py.value (Music21.flat_stream Py.number) id
      demo_parse "scores/chord.xml" w1 = (r, w2)
    ∧ length (Plt.lines (Plt.axes fig))
      = sum_list ((λ oe, sounding_pitches oe.2) <$> id (demo_flatten chord_score))
    ∧ Plt.title (Plt.axes fig) = "Piano roll for " +:+ "scores/chord.xml"
    ∧ Plt.legend fig = None
    ∧ (open_error name w1 = None →
       r = inr ()
       ∧ files w2 = <[name := fig]> (files w1) ∧ stdout w2 = stdout w1)
    ∧ (open_error name w1 = Some FileNotFoundError →
       r = inr ()
       ∧ files w2 = files w1
       ∧ stdout w2 = stdout w1 ++ [missing_directory_message])
    ∧ (∀ e, open_error name w1 = Some e → e ≠ FileNotFoundError →
            r = inl e ∧ files w2 = files w1 ∧ stdout w2 = stdout w1)
    ∧ directories w2 = directories w1
    ∧ (∀ r l, heap w1 !! r = Some l → heap w2 !! r = Some l).
Proof.
  apply (main_draws_the_score Py.number Py.add Py.value
           (Music21.flat_stream Py.number) id demo_parse
           "scores/chord.xml" (world_with roll_ties ["."; "./piano_rolls"])
           (world_with roll_ties ["."; "./piano_rolls"])
           (demo_flatten chord_score)).
  - reflexivity.
  - intros H. by apply Forall_cons in H as [H _].
  - repeat (apply List.Forall_cons;
            [vm_compute; repeat split; discriminate|]).
    apply List.Forall_nil.
  - reflexivity.
Defined.

(** The program on the score of the examples: the sheet lies in [scores/], so
    the figure needs [./piano_rolls/scores], which is not there. *)
Example main_needs_the_directory_of_the_sheet :
  let r := main Py.number Py.add Py.value (Music21.flat_stream Py.number) id
             demo_parse "scores/chord.xml"
             (world_with roll_ties ["."; "./piano_rolls"]) in
  r.1 = inr ()
  ∧ stdout r.2 = [missing_directory_message]
  ∧ files r.2 = ∅.
Proof. vm_compute. done. Qed.
